(** * react-fields: the schema walker ([Fields]) and the form controller ([Form])

    A shallow embedding of [src/lib/fields.jsx] (the [Fields] component and
    [renderFields]) and of the [Form] component, with the properties of the
    specification stated over it.

    ** Scope of the value model

    JavaScript values are modelled as JSON-like data: [undefined], [null],
    booleans, integers, strings, opaque function values, and references to
    objects living in a store.  An object is its set of own enumerable data
    properties, together with a flag that says whether it is an array.
    Strings expose their indices and their [length], arrays their [length];
    properties inherited from prototypes, accessors, symbols, writes to the
    [length] of an array and properties of function values are not modelled.
    Numbers are integers (no [NaN], no fractions).  Strings are sequences of
    characters, compared character code by character code.  Enumeration
    order of the properties of an object is not modelled either: the only
    enumeration the properties below depend on is sorted before it is used.

    Field paths are typed as the source documents them: a dotted string, an
    array of keys (keys are strings; a numeric key is its decimal string), or
    nothing.  The [fields] property is an array of field names.

    The functions of the [lodash] library that the source calls ([_.get],
    [_.set], [_.keys], [_.sortBy], [_.pickBy], [_.isEmpty]) are not part of
    the repository; they are transcribed from the implementation of lodash 4
    (without the later refusal of [_.set] to write the keys [__proto__],
    [constructor] and [prototype]). *)

From stdpp Require Import gmap strings list fin_maps sorting pretty.
From Stdlib Require Import ZArith Ascii String.

Local Open Scope string_scope.
Local Open Scope Z_scope.

(** ** Values and the object store *)

Abbreviation loc := positive (only parsing).

(** Errors raised by the runtime or by [invariant].  [FieldNotDefined fps] is
    the violation whose message is
    [render('${fps}') failed because the field "${fps}" is not defined in the schema.];
    [NoComponent fps ty] is the one whose message is
    [field "${fps}" has a type "${ty}" that does not have a component]. *)
Inductive js_error :=
| TypeError
| ReferenceError (ident : string)
| FieldNotDefined (fieldPathString : option string)
| NoComponent (fieldPathString : option string) (type : option string).

Inductive val :=
| VUndef
| VNull
| VBool (b : bool)
| VNum (n : Z)
| VStr (s : string)
| VFun (name : string)
| VOnChange (fieldPath : option (list string)) (fieldPathString : option string)
| VError (e : js_error)
| VRef (l : loc).

Record obj := Obj { o_array : bool; o_props : gmap string val }.

Abbreviation heap := (gmap loc obj) (only parsing).

#[global] Instance js_error_eq_dec : EqDecision js_error.
Proof. solve_decision. Defined.
#[global] Instance val_eq_dec : EqDecision val.
Proof. solve_decision. Defined.
#[global] Instance obj_eq_dec : EqDecision obj.
Proof. solve_decision. Defined.

Definition plain (m : gmap string val) : obj := Obj false m.
Definition array (m : gmap string val) : obj := Obj true m.

(** [alloc h o] evaluates an object or array literal: a fresh location. *)
Definition alloc (h : heap) (o : obj) : loc * heap :=
  let l := fresh (dom h) in (l, <[l := o]> h).

(** JavaScript truthiness ([!!v]). *)
Definition truthy (v : val) : bool :=
  match v with
  | VUndef | VNull => false
  | VBool b => b
  | VNum n => negb (n =? 0)
  | VStr s => negb (String.eqb s "")
  | VFun _ | VOnChange _ _ | VError _ | VRef _ => true
  end.

(** [v == null] *)
Definition nullish (v : val) : bool :=
  match v with VUndef | VNull => true | _ => false end.

(** [a || b] and [a && b] on values. *)
Definition js_or (a b : val) : val := if truthy a then a else b.
Definition js_and (a b : val) : val := if truthy a then b else a.

(** lodash [isObject]: objects and functions. *)
Definition isObject (v : val) : bool :=
  match v with
  | VRef _ | VFun _ | VOnChange _ _ | VError _ => true
  | _ => false
  end.

(** *** Array indices *)

Definition digit_of (c : ascii) : option N :=
  let n := N_of_ascii c in
  if ((48 <=? n) && (n <=? 57))%N then Some (n - 48)%N else None.

Fixpoint parse_digits (acc : N) (s : string) : option N :=
  match s with
  | EmptyString => Some acc
  | String c s' =>
      match digit_of c with
      | Some d => parse_digits (10 * acc + d)%N s'
      | None => None
      end
  end.

(** The strings accepted by lodash's [reIsUint]: [0], or a non-empty run of
    decimal digits that does not start with [0]. *)
Definition parse_uint (s : string) : option N :=
  match s with
  | EmptyString => None
  | String "0"%char EmptyString => Some 0%N
  | String "0"%char _ => None
  | _ => parse_digits 0 s
  end.

Definition MAX_SAFE_INTEGER : N := 9007199254740991.

(** lodash [isIndex(key)] on a string key. *)
Definition isIndex (key : string) : bool :=
  match parse_uint key with
  | Some n => (n <? MAX_SAFE_INTEGER)%N
  | None => false
  end.

(** The [length] of an array: one more than its largest index. *)
Definition array_length (m : gmap string val) : N :=
  map_fold (λ k _ acc,
    match parse_uint k with
    | Some n => if (n <? 4294967295)%N then N.max acc (N.succ n) else acc
    | None => acc
    end) 0%N m.

Fixpoint string_chars (i : N) (s : string) : list (string * val) :=
  match s with
  | EmptyString => []
  | String c s' => (pretty i, VStr (String c EmptyString)) :: string_chars (N.succ i) s'
  end.

(** *** Property access *)

(** The own enumerable properties of a value, as [Object.assign] and the
    spread operator see them. *)
Definition own_enumerable (h : heap) (v : val) : gmap string val :=
  match v with
  | VRef l => match h !! l with Some o => o_props o | None => ∅ end
  | VStr s => list_to_map (string_chars 0 s)
  | _ => ∅
  end.

(** The property [k] of [v], when [v] has one. *)
Definition lookup_prop (h : heap) (v : val) (k : string) : option val :=
  match v with
  | VRef l =>
      match h !! l with
      | Some o =>
          if o_array o && String.eqb k "length"
          then Some (VNum (Z.of_N (array_length (o_props o))))
          else o_props o !! k
      | None => None
      end
  | VStr s =>
      if String.eqb k "length" then Some (VNum (Z.of_nat (String.length s)))
      else own_enumerable h v !! k
  | _ => None
  end.

(** [v[k]] for a [v] that is not [null] or [undefined]: a property that is
    not there reads as [undefined]. *)
Definition get_prop (h : heap) (v : val) (k : string) : val :=
  default VUndef (lookup_prop h v k).

(** [v[k] = x]: a store into an object of the heap; on anything else the
    assignment has no effect. *)
Definition set_prop (h : heap) (v : val) (k : string) (x : val) : heap :=
  match v with
  | VRef l =>
      match h !! l with
      | Some o => <[l := Obj (o_array o) (<[k := x]> (o_props o))]> h
      | None => h
      end
  | _ => h
  end.

(** Results of code that may throw. *)
Inductive result (A : Type) :=
| Ok (a : A)
| Throw (e : val).
Arguments Ok {A} a.
Arguments Throw {A} e.

(** Sequencing of code that may throw. *)
Definition bind_result {A B} (r : result A) (k : A → result B) : result B :=
  match r with
  | Ok a => k a
  | Throw e => Throw e
  end.

(** [_.map(list, f)] for an [f] that may throw: left to right, stopping at
    the first exception. *)
Fixpoint map_result {A B} (f : A → result B) (l : list A) : result (list B) :=
  match l with
  | [] => Ok []
  | x :: l' =>
      bind_result (f x) (λ y,
      bind_result (map_result f l') (λ ys, Ok (y :: ys)))
  end.

(** [v.k] where [v] may be [null] or [undefined]. *)
Definition member (h : heap) (v : val) (k : string) : result val :=
  if nullish v then Throw (VError TypeError) else Ok (get_prop h v k).

(** Conversion of a value used as a property key.  Objects and functions
    have no key in this model. *)
Definition to_key (v : val) : option string :=
  match v with
  | VUndef => Some "undefined"
  | VNull => Some "null"
  | VBool true => Some "true"
  | VBool false => Some "false"
  | VNum n => Some (pretty n)
  | VStr s => Some s
  | _ => None
  end.

Definition get_prop_val (h : heap) (v : val) (k : val) : val :=
  match to_key k with
  | Some s => get_prop h v s
  | None => VUndef
  end.

(** ** lodash *)

Module lodash.

(** [baseGet]'s loop:
    [while (object != null && index < length) object = object[toKey(path[index++])]].
    [None] when the loop stops before the end of the path. *)
Fixpoint baseGet_loop (h : heap) (object : val) (path : list string) : option val :=
  match path with
  | [] => Some object
  | key :: rest =>
      if nullish object then None
      else baseGet_loop h (get_prop h object key) rest
  end.

(** [return (index && index == length) ? object : undefined] *)
Definition baseGet (h : heap) (object : val) (path : list string) : val :=
  match path with
  | [] => VUndef
  | _ => default VUndef (baseGet_loop h object path)
  end.

(** [_.get(object, path)] with an array path and no default value. *)
Definition get (h : heap) (object : val) (path : list string) : val :=
  if nullish object then VUndef else baseGet h object path.

(** [baseSet]'s loop.  For a key that is not the last, the value already
    there is kept when it is an object, and replaced by a new array or
    object otherwise, according to the next key. *)
Fixpoint baseSet_loop (h : heap) (nested : val) (path : list string) (value : val) : heap :=
  match path with
  | [] => h
  | key :: rest =>
      if nullish nested then h
      else
        match rest with
        | [] => set_prop h nested key value
        | next :: _ =>
            let objValue := get_prop h nested key in
            if isObject objValue then
              let h1 := set_prop h nested key objValue in
              baseSet_loop h1 (get_prop h1 nested key) rest value
            else
              let '(l, h1) := alloc h (if isIndex next then array ∅ else plain ∅) in
              let h2 := set_prop h1 nested key (VRef l) in
              baseSet_loop h2 (get_prop h2 nested key) rest value
        end
  end.

(** [_.set(object, path, value)]: mutates [object] and returns it. *)
Definition set (h : heap) (object : val) (path : list string) (value : val) : val * heap :=
  if nullish object then (object, h)
  else if isObject object then (object, baseSet_loop h object path value)
  else (object, h).

(** [_.keys(object)]: the own enumerable property names. *)
Definition keys (h : heap) (object : val) : list string :=
  (map_to_list (own_enumerable h object)).*1.

(** [_.isEmpty(value)] *)
Definition isEmpty (h : heap) (value : val) : bool :=
  match value with
  | VStr s => String.eqb s ""
  | VRef l =>
      match h !! l with
      | Some o =>
          if o_array o then (array_length (o_props o) =? 0)%N
          else bool_decide (o_props o = ∅)
      | None => true
      end
  | _ => true
  end.

(** The order of [compareAscending] on strings: [<] and [>] of JavaScript
    compare strings unit by unit, a proper prefix first. *)
Definition string_le (a b : string) : Prop := String.leb a b = true.

#[global] Instance string_le_dec a b : Decision (string_le a b).
Proof. unfold string_le. apply _. Defined.

(** [_.sortBy(names)] with the identity iteratee: a stable ascending sort. *)
Definition sortBy (names : list string) : list string :=
  merge_sort string_le names.

End lodash.

(** [String.prototype.split('.')] *)
Fixpoint split_dot (s : string) : list string :=
  match s with
  | EmptyString => [EmptyString]
  | String c s' =>
      if Ascii.eqb c "."%char then EmptyString :: split_dot s'
      else
        match split_dot s' with
        | seg :: segs => String c seg :: segs
        | [] => [String c EmptyString]
        end
  end.

(** ** The [Fields] component ([src/lib/fields.jsx]) *)

(** A field path as a caller gives it: absent (any falsy value), a dotted
    string, or an array of keys. *)
Inductive path_arg :=
| PathNone
| PathStr (s : string)
| PathArr (ks : list string).

(** The named properties passed to [Fields], and the options object of
    [renderFields] that they are taken from.  [VUndef] (or [None]) stands for
    an absent key. *)
Record props := Props {
  p_schema : val;
  p_render : val;
  p_value : val;
  p_onChange : val;
  p_error : val;
  p_errors : val;
  p_readOnly : val;
  p_showLabels : val;
  p_fieldTypes : val;
  p_fieldComponents : val;
  p_fields : option (list string);
  p_fieldsContext : val;
  p_fieldComponentProps : val
}.

(** The record returned by [getFieldData]. *)
Record FieldData := mkFieldData {
  fieldPath : option (list string);
  fieldPathString : option string;
  fieldSchema : val;
  fieldError : val;
  fieldType : val;
  value : val;
  onChange : val
}.

(** What [changeField] passes to [this.props.onChange], in the order of the
    call: [(value, fieldPathString, fieldValue, fieldPath)]. *)
Definition listener_call : Type :=
  val * option string * val * option (list string).

(** Rendered output. *)
#[warnings="-register-all"]
Inductive node :=
| NNull
| NText (text : val)
| NHost (tag : string) (key : val) (children : list node)
| NComponent (component : val) (cprops : gmap string val).

(** [{...target, ...source}]: the keys of [source] win. *)
Definition spread (target source : gmap string val) : gmap string val :=
  source ∪ target.

Definition key_of (fps : option string) : val :=
  match fps with Some s => VStr s | None => VNull end.

Module Fields.

(** The objects of [static defaultProps], created once when the class is
    defined: the store of a running program holds an empty object at each of
    these two locations. *)
Definition defaultProps_value : val := VRef 1%positive.
Definition defaultProps_fieldComponents : val := VRef 2%positive.

Definition changeField (P : props) (h : heap) (fieldPath : option (list string))
    (fieldValue : val) (fieldPathString : option string)
    : heap * option listener_call :=
  let '(value, h') :=
    match fieldPath with
    | Some path =>
        let '(l, h1) := alloc h (plain (own_enumerable h (p_value P))) in
        lodash.set h1 (VRef l) path fieldValue
    | None => (fieldValue, h)
    end in
  if truthy (p_onChange P)
  then (h', Some (value, fieldPathString, fieldValue, fieldPath))
  else (h', None).

(** Normalisation of the field path at the head of [getFieldData]. *)
Definition normalize (arg : path_arg) : option (list string) * option string :=
  match arg with
  | PathStr s => (Some (split_dot s), Some s)
  | PathArr ks => (Some ks, None)
  | PathNone => (None, None)
  end.

Definition getFieldData (P : props) (h : heap) (arg : path_arg) : result FieldData :=
  let '(fieldPath, fieldPathString) := normalize arg in
  let fieldSchema :=
    match fieldPath with
    | Some path => lodash.get h (p_schema P) path
    | None => p_schema P
    end in
  if negb (truthy fieldSchema) then Throw (VError (FieldNotDefined fieldPathString))
  else
    let fieldError :=
      match fieldPath with
      | Some path => lodash.get h (p_error P) path
      | None => p_error P
      end in
    let value :=
      match fieldPath with
      | Some path => lodash.get h (p_value P) path
      | None => p_value P
      end in
    let fieldType :=
      js_and (p_fieldTypes P)
             (get_prop_val h (p_fieldTypes P) (get_prop h fieldSchema "type")) in
    Ok {| fieldPath := fieldPath;
          fieldPathString := fieldPathString;
          fieldSchema := fieldSchema;
          fieldError := fieldError;
          fieldType := fieldType;
          value := value;
          onChange := VOnChange fieldPath fieldPathString |}.

(** Calling the [onChange] of a field data record with a new value. *)
Definition call_onChange (P : props) (h : heap) (f : val) (fieldValue : val)
    : heap * option listener_call :=
  match f with
  | VOnChange fieldPath fieldPathString =>
      changeField P h fieldPath fieldValue fieldPathString
  | _ => (h, None)
  end.

(** The five properties written first in the object literal of
    [getPropsForFieldData]. *)
Definition base_props (h : heap) (fieldData : FieldData) : gmap string val :=
  {[ "value" := value fieldData;
     "onChange" := onChange fieldData;
     "error" := fieldError fieldData;
     "schema" := fieldSchema fieldData;
     "required" := lodash.get h (fieldSchema fieldData) ["rules"; "required"] ]}.

Definition global_props (P : props) (h : heap) : gmap string val :=
  own_enumerable h (p_fieldComponentProps P).

Definition field_props (h : heap) (fieldData : FieldData) : gmap string val :=
  own_enumerable h (get_prop h (fieldSchema fieldData) "fieldComponentProps").

Definition type_props (h : heap) (fieldData : FieldData) : gmap string val :=
  own_enumerable h
    (js_and (fieldType fieldData) (get_prop h (fieldType fieldData) "fieldComponentProps")).

Definition getPropsForFieldData (P : props) (h : heap) (fieldData : FieldData)
    : result (gmap string val) :=
  if nullish (fieldSchema fieldData) then Throw (VError TypeError)
  else
    Ok (spread (spread (spread (base_props h fieldData)
                               (global_props P h))
                       (field_props h fieldData))
               (type_props h fieldData)).

Definition propsFor (P : props) (h : heap) (arg : path_arg) : result (gmap string val) :=
  match getFieldData P h arg with
  | Ok fieldData => getPropsForFieldData P h fieldData
  | Throw e => Throw e
  end.

Definition renderField (P : props) (h : heap) (rawFieldPath : path_arg)
    (fieldProps : val) (fieldComponent : val) : result node :=
  match getFieldData P h rawFieldPath with
  | Throw e => Throw e
  | Ok fieldData =>
      match getPropsForFieldData P h fieldData with
      | Throw e => Throw e
      | Ok props =>
          let FieldComponent :=
            js_or (js_or fieldComponent
                         (get_prop h (fieldSchema fieldData) "fieldComponent"))
                  (js_and (fieldType fieldData)
                          (get_prop h (fieldType fieldData) "fieldComponent")) in
          if negb (truthy FieldComponent)
          then Throw (VError (NoComponent (fieldPathString fieldData)
                                (to_key (get_prop h (fieldSchema fieldData) "type"))))
          else
            Ok (NHost "div" (key_of (fieldPathString fieldData))
                  [NNull;
                   NComponent FieldComponent
                     (spread props (own_enumerable h fieldProps))])
      end
  end.

Definition renderFieldWithProps (P : props) (h : heap) (arg : path_arg) (fprops : val) :=
  renderField P h arg fprops VUndef.

Definition renderFieldWithComponent (P : props) (h : heap) (arg : path_arg)
    (Component : val) (fprops : val) :=
  renderField P h arg fprops Component.

Section renderAllFields.

(** The [titleize] package: a field name to a human-readable title. *)
Variable titleize : string → string.

Definition sortedFieldNames (P : props) (h : heap) : list string :=
  let fieldNames := lodash.keys h (p_schema P) in
  match p_fields P with
  | Some fields => fields
  | None => lodash.sortBy fieldNames
  end.

(** One item of [renderAllFields]:
    [<div key={fieldName}><label>{title || titleize(fieldName)}</label>{renderField(fieldName)}</div>] *)
Definition renderItem (P : props) (h : heap) (fieldName : string) : result node :=
  bind_result (member h (p_schema P) fieldName) (λ entry,
  bind_result (member h entry "title") (λ title,
  let label := js_or title (VStr (titleize fieldName)) in
  bind_result (renderField P h (PathStr fieldName) VUndef VUndef) (λ field,
  Ok (NHost "div" (VStr fieldName)
        [NHost "label" VUndef [NText label]; field])))).

Definition renderAllFields (P : props) (h : heap) : result node :=
  bind_result (map_result (renderItem P h) (sortedFieldNames P h)) (λ items,
  Ok (NHost "div" VUndef items)).

(** The object [render] passes to the render function: the three bound
    methods, the value tree, then the spread of [fieldsContext]. *)
Definition context (P : props) (h : heap) : gmap string val :=
  spread {[ "render" := VFun "Fields.renderFieldWithProps";
            "renderComponent" := VFun "Fields.renderFieldWithComponent";
            "propsFor" := VFun "Fields.propsFor";
            "value" := p_value P ]}
         (own_enumerable h (p_fieldsContext P)).

(** A call of the render function supplied by the caller, with the context
    object. *)
Variable call_render : val → gmap string val → heap → result node.

(** [(this.props.render || ::this.renderAllFields)({...})];
    [renderAllFields] ignores its argument. *)
Definition render (P : props) (h : heap) : result node :=
  if truthy (p_render P) then call_render (p_render P) (context P h) h
  else renderAllFields P h.

End renderAllFields.

End Fields.

(** ** [renderFields] ([src/lib/fields.jsx]) *)

Definition TextInput : val := VFun "TextInput".
Definition NumberInput : val := VFun "NumberInput".

Definition pick (v : val) : val := if truthy v then v else VUndef.

(** [_.pickBy(options, v => v)]: the keys whose value is truthy.  An array
    is always truthy. *)
Definition pickBy_truthy (o : props) : props :=
  {| p_schema := pick (p_schema o);
     p_render := pick (p_render o);
     p_value := pick (p_value o);
     p_onChange := pick (p_onChange o);
     p_error := pick (p_error o);
     p_errors := pick (p_errors o);
     p_readOnly := pick (p_readOnly o);
     p_showLabels := pick (p_showLabels o);
     p_fieldTypes := pick (p_fieldTypes o);
     p_fieldComponents := pick (p_fieldComponents o);
     p_fields := p_fields o;
     p_fieldsContext := pick (p_fieldsContext o);
     p_fieldComponentProps := pick (p_fieldComponentProps o) |}.

(** A key of an object literal or of an attribute list, followed by a spread
    of picked options: the option wins when it is there. *)
Definition overridden (written picked : val) : val :=
  match picked with VUndef => written | _ => picked end.

(** React's resolution of [defaultProps]: used when the property is
    [undefined]. *)
Definition defaulted (given dflt : val) : val :=
  match given with VUndef => dflt | _ => given end.

(** [renderFields(schema, options, render)]: the properties of the [Fields]
    instance it creates. *)
Definition renderFields (h : heap) (schema : val) (options : props) (render : val)
    : props * heap :=
  let '(lstring, h1) := alloc h (plain {[ "fieldComponent" := TextInput ]}) in
  let '(lnumber, h2) := alloc h1 (plain {[ "fieldComponent" := NumberInput ]}) in
  let '(ltypes, h3) :=
    alloc h2 (plain {[ "string" := VRef lstring; "number" := VRef lnumber ]}) in
  let picked := pickBy_truthy options in
  ({| p_schema := overridden schema (p_schema picked);
      p_render := overridden render (p_render picked);
      p_value := defaulted (p_value picked) Fields.defaultProps_value;
      p_onChange := p_onChange picked;
      p_error := p_error picked;
      p_errors := p_errors picked;
      p_readOnly := p_readOnly picked;
      p_showLabels := p_showLabels picked;
      p_fieldTypes := overridden (VRef ltypes) (p_fieldTypes picked);
      p_fieldComponents :=
        defaulted (p_fieldComponents picked) Fields.defaultProps_fieldComponents;
      p_fields := p_fields picked;
      p_fieldsContext := p_fieldsContext picked;
      p_fieldComponentProps := p_fieldComponentProps picked |}, h3).

(** [{ ...baseOptions, ...options }]: a key of [options] wins over the same
    key of [baseOptions].  In these records [VUndef] is an absent key: a key
    that is present with the value [undefined] is not represented. *)
Definition merge_options (baseOptions options : props) : props :=
  {| p_schema := overridden (p_schema baseOptions) (p_schema options);
     p_render := overridden (p_render baseOptions) (p_render options);
     p_value := overridden (p_value baseOptions) (p_value options);
     p_onChange := overridden (p_onChange baseOptions) (p_onChange options);
     p_error := overridden (p_error baseOptions) (p_error options);
     p_errors := overridden (p_errors baseOptions) (p_errors options);
     p_readOnly := overridden (p_readOnly baseOptions) (p_readOnly options);
     p_showLabels := overridden (p_showLabels baseOptions) (p_showLabels options);
     p_fieldTypes := overridden (p_fieldTypes baseOptions) (p_fieldTypes options);
     p_fieldComponents :=
       overridden (p_fieldComponents baseOptions) (p_fieldComponents options);
     p_fields :=
       match p_fields options with
       | Some fields => Some fields
       | None => p_fields baseOptions
       end;
     p_fieldsContext :=
       overridden (p_fieldsContext baseOptions) (p_fieldsContext options);
     p_fieldComponentProps :=
       overridden (p_fieldComponentProps baseOptions) (p_fieldComponentProps options) |}.

(** [createFieldRenderer(baseOptions)], applied to [(schema, options, render)]. *)
Definition createFieldRenderer (baseOptions : props) (h : heap) (schema : val)
    (options : props) (render : val) : props * heap :=
  renderFields h schema (merge_options baseOptions options) render.

(** ** The [Form] component *)

(** A settled promise returned by one of the functions passed to [Form]. *)
Inductive outcome :=
| Resolved (v : val)
| Rejected (e : val).

(** The properties of [Form] that [submit] and [render] read.  [validate],
    [submit] and [afterSubmit] are the functions supplied by the caller: they
    take the store as they find it and leave it as they like. *)
Record FormProps := {
  f_schema : val;
  f_render : val;
  f_value : val;
  f_fields : option (list string);
  f_showLabels : val;
  f_fieldComponents : val;
  f_validate : heap → val → val → outcome * heap;
  f_submit : heap → val → outcome * heap;
  f_afterSubmit : option (heap → val → val → outcome * heap)
}.

(** [this.state] *)
Record FormState := { values : val; errors : val }.

(** What a submit cycle does that can be observed from outside, in order. *)
Inductive event :=
| SetErrors (errors : val)
| CallValidate (schema values : val)
| CallSubmit (values : val)
| CallAfterSubmit (values res : val).

#[global] Instance event_eq_dec : EqDecision event.
Proof. solve_decision. Defined.

Record world := World {
  w_heap : heap;
  w_state : FormState;
  w_trace : list event
}.

(** Code that reads and writes the world and may throw. *)
Definition M (A : Type) : Type := world → result A * world.

Definition ret {A} (a : A) : M A := λ w, (Ok a, w).
Definition throw {A} (e : val) : M A := λ w, (Throw e, w).
Definition bind {A B} (c : M A) (k : A → M B) : M B :=
  λ w, match c w with
       | (Ok a, w') => k a w'
       | (Throw e, w') => (Throw e, w')
       end.

#[global] Instance M_ret : MRet M := @ret.
#[global] Instance M_bind : MBind M := λ A B k c, bind c k.

(** [try { c } catch (e) { handler e }] *)
Definition try_catch {A} (c : M A) (handler : val → M A) : M A :=
  λ w, match c w with
       | (Ok a, w') => (Ok a, w')
       | (Throw e, w') => handler e w'
       end.

Definition get_state : M FormState := λ w, (Ok (w_state w), w).
Definition get_heap : M heap := λ w, (Ok (w_heap w), w).

(** [this.setState({ errors })] *)
Definition setState_errors (e : val) : M unit :=
  λ w, (Ok tt, World (w_heap w) {| values := values (w_state w); errors := e |}
                     (w_trace w ++ [SetErrors e])).

(** An object literal. *)
Definition new_object (o : obj) : M val :=
  λ w, let '(l, h) := alloc (w_heap w) o in
       (Ok (VRef l), World h (w_state w) (w_trace w)).

(** [await f(...)]: the call is logged, a rejection is thrown. *)
Definition await (e : event) (f : heap → outcome * heap) : M val :=
  λ w, let '(out, h) := f (w_heap w) in
       let w' := World h (w_state w) (w_trace w ++ [e]) in
       match out with
       | Resolved v => (Ok v, w')
       | Rejected err => (Throw err, w')
       end.

(** The identifier [_] is free in the module of [Form], which imports only
    [react], [./fields] and [./validate]: it is looked up in the global
    scope.  [lodash_global] says whether that scope binds it to lodash. *)
Record globals := { lodash_global : bool }.

Definition resolve_lodash (G : globals) : M unit :=
  if lodash_global G then ret tt else throw (VError (ReferenceError "_")).

Module Form.

(** The constructor: [this.state = { values: {}, errors: null }]. *)
Definition constructor (h : heap) : FormState * heap :=
  let '(l, h') := alloc h (plain ∅) in
  ({| values := VRef l; errors := VNull |}, h').

(** [onChange(values, fieldName, value) { this.setState({ values }) }] *)
Definition onChange (st : FormState) (values' : val) (fieldName : val) (value' : val)
    : FormState :=
  {| values := values'; errors := errors st |}.

(** [async submit()].  [Ok tt] is the promise fulfilled, [Throw e] the
    promise rejected with [e].  [setState] is applied at once; the cycle
    reads the state only at its start. *)
Definition submit (G : globals) (P : FormProps) : M unit :=
  st ← get_state;
  let values := values st in
  setState_errors VNull;;
  fieldErrors ← await (CallValidate (f_schema P) values)
                      (λ h, f_validate P h (f_schema P) values);
  resolve_lodash G;;
  h ← get_heap;
  if negb (lodash.isEmpty h fieldErrors) then
    errors ← new_object (plain {[ "fieldErrors" := fieldErrors ]});
    setState_errors errors
  else
    caught ← try_catch
      (res ← await (CallSubmit values) (λ h, f_submit P h values); ret (Some res))
      (λ errors, setState_errors errors;; ret None);
    match caught with
    | None => ret tt
    | Some res =>
        match f_afterSubmit P with
        | Some afterSubmit =>
            await (CallAfterSubmit values res) (λ h, afterSubmit h values res);;
            ret tt
        | None => ret tt
        end
    end.

(** [renderError]: the summary message, when there is one. *)
Definition renderError (st : FormState) (h : heap) : node :=
  let error := js_and (errors st) (get_prop h (errors st) "summaryError") in
  if truthy error then NHost "div" VUndef [NText error] else NNull.

(** The [options] object built by [render]. *)
Definition render_options (P : FormProps) (st : FormState) (h : heap) : props * heap :=
  let '(lctx, h1) :=
    alloc h (plain {[ "renderSubmit" := VFun "Form.renderSubmit";
                      "submit" := VFun "Form.submit" ]}) in
  ({| p_schema := VUndef;
      p_render := VUndef;
      p_value := f_value P;
      p_onChange := VFun "Form.onChange";
      p_error := VUndef;
      p_errors := js_and (errors st) (get_prop h (errors st) "fieldErrors");
      p_readOnly := VUndef;
      p_showLabels := f_showLabels P;
      p_fieldTypes := VUndef;
      p_fieldComponents := f_fieldComponents P;
      p_fields := f_fields P;
      p_fieldsContext := VRef lctx;
      p_fieldComponentProps := VUndef |}, h1).

(** [render]: the error summary and the properties of the [Fields] instance
    below it. *)
Definition render (P : FormProps) (st : FormState) (h : heap) : node * props * heap :=
  let '(options, h1) := render_options P st h in
  let '(fields, h2) := renderFields h1 (f_schema P) options (f_render P) in
  (renderError st h, fields, h2).

(** [renderSubmit(props)]:
    [<Submit {...this.props.submitComponentProps} {...props} onClick={::this.submit}/>],
    where [Submit] is [this.props.submitComponent]. *)
Definition renderSubmit (submitComponent submitComponentProps : val) (h : heap)
    (props : val) : node :=
  NComponent submitComponent
    (<[ "onClick" := VFun "Form.submit" ]>
       (spread (own_enumerable h submitComponentProps) (own_enumerable h props))).

End Form.

(** * Definitions used by the statements *)

(** Direct nested lookup, as the specification words it: follow the keys one
    after the other; [None] when a key is missing on the way. *)
Fixpoint nested_lookup (h : heap) (v : val) (path : list string) : option val :=
  match path with
  | [] => Some v
  | key :: rest =>
      match lookup_prop h v key with
      | Some x => nested_lookup h x rest
      | None => None
      end
  end.

(** The Field Definition at a path, when there is one.  Fields live under the
    keys of the schema, so the empty key sequence addresses no field; and a
    definition is an object, hence truthy, which is what the source tests. *)
Definition definition_at (h : heap) (schema : val) (path : list string) : option val :=
  match path with
  | [] => None
  | _ =>
      match nested_lookup h schema path with
      | Some d => if truthy d then Some d else None
      | None => None
      end
  end.

(** What [getFieldData] returns for a given key sequence [path] and path
    string [fps], according to the definition found at the path. *)
Definition resolves (P : props) (h : heap) (arg : path_arg) (path : list string)
    (fps : option string) : Prop :=
  match definition_at h (p_schema P) path with
  | Some d =>
      ∃ fd, Fields.getFieldData P h arg = Ok fd
        ∧ fieldSchema fd = d
        ∧ value fd = default VUndef (nested_lookup h (p_value P) path)
        ∧ fieldError fd = default VUndef (nested_lookup h (p_error P) path)
  | None =>
      Fields.getFieldData P h arg = Throw (VError (FieldNotDefined fps))
  end.

(** Two resolutions agree: both fail, or both return and the records agree on
    the normalised path, the definition, the value, the error and the type
    defaults. *)
Definition same_resolution (a b : result FieldData) : Prop :=
  match a, b with
  | Ok fa, Ok fb =>
      fieldPath fa = fieldPath fb
      ∧ fieldSchema fa = fieldSchema fb
      ∧ value fa = value fb
      ∧ fieldError fa = fieldError fb
      ∧ fieldType fa = fieldType fb
  | Throw _, Throw _ => True
  | _, _ => False
  end.

(** The first level that has the key decides. *)
Fixpoint first_of (levels : list (gmap string val)) (k : string) : option val :=
  match levels with
  | [] => None
  | m :: rest =>
      match m !! k with
      | Some v => Some v
      | None => first_of rest k
      end
  end.

(** *** A field with overlapping keys at every level *)

Module Overlap.

Definition h : heap :=
  {[ 20%positive := plain {[ "name" := VRef 21%positive ]};
     21%positive := plain {[ "type" := VStr "string";
                             "rules" := VRef 22%positive;
                             "fieldComponentProps" := VRef 23%positive ]};
     22%positive := plain {[ "required" := VBool true ]};
     23%positive := plain {[ "error" := VStr "F"; "schema" := VStr "F";
                             "size" := VStr "F" ]};
     24%positive := plain {[ "value" := VStr "G"; "error" := VStr "G";
                             "schema" := VStr "G" ]};
     25%positive := plain {[ "string" := VRef 26%positive ]};
     26%positive := plain {[ "fieldComponent" := VFun "TextInput";
                             "fieldComponentProps" := VRef 27%positive ]};
     27%positive := plain {[ "schema" := VStr "T"; "size" := VStr "T" ]};
     28%positive := plain {[ "name" := VStr "Ann" ]} ]}.

Definition P : props :=
  {| p_schema := VRef 20%positive; p_render := VUndef;
     p_value := VRef 28%positive; p_onChange := VUndef;
     p_error := VUndef; p_errors := VUndef; p_readOnly := VUndef;
     p_showLabels := VUndef; p_fieldTypes := VRef 25%positive;
     p_fieldComponents := VUndef; p_fields := None; p_fieldsContext := VUndef;
     p_fieldComponentProps := VRef 24%positive |}.

Definition fd : FieldData :=
  {| fieldPath := Some ["name"]; fieldPathString := Some "name";
     fieldSchema := VRef 21%positive; fieldError := VUndef;
     fieldType := VRef 26%positive; value := VStr "Ann";
     onChange := VOnChange (Some ["name"]) (Some "name") |}.

Definition merged : gmap string val :=
  {[ "value" := VStr "G"; "onChange" := VOnChange (Some ["name"]) (Some "name");
     "error" := VStr "F"; "schema" := VStr "T"; "required" := VBool true;
     "size" := VStr "T" ]}.

End Overlap.

(** The precedence the other way round: the base decides when it has the
    key, else the global properties, else the field, else the type
    registry. *)
Definition base_first_precedence : Prop :=
  ∀ (P : props) (h : heap) (arg : path_arg) (fd : FieldData) (props : gmap string val),
    Fields.getFieldData P h arg = Ok fd →
    Fields.propsFor P h arg = Ok props →
    ∀ k, props !! k
         = first_of [Fields.base_props h fd; Fields.global_props P h;
                     Fields.field_props h fd; Fields.type_props h fd] k.

(** The key of a rendered node. *)
Definition node_key (n : node) : val :=
  match n with
  | NHost _ key _ => key
  | _ => VUndef
  end.

(** *** The schema with the keys z, a, m *)

Module ZAM.

Definition h : heap :=
  {[ 1%positive := plain ∅;
     2%positive := plain ∅;
     30%positive := plain {[ "z" := VRef 31%positive; "a" := VRef 32%positive;
                             "m" := VRef 33%positive ]};
     31%positive := plain {[ "type" := VStr "string" ]};
     32%positive := plain {[ "type" := VStr "number"; "title" := VStr "Age" ]};
     33%positive := plain {[ "type" := VStr "string" ]} ]}.

Definition schema : val := VRef 30%positive.

(** No option at all: [renderFields(schema)]. *)
Definition options : props :=
  {| p_schema := VUndef; p_render := VUndef; p_value := VUndef;
     p_onChange := VUndef; p_error := VUndef; p_errors := VUndef;
     p_readOnly := VUndef; p_showLabels := VUndef; p_fieldTypes := VUndef;
     p_fieldComponents := VUndef; p_fields := None; p_fieldsContext := VUndef;
     p_fieldComponentProps := VUndef |}.

End ZAM.

(** A submit cycle started in state [st] with store [h]. *)
Definition run_submit (G : globals) (P : FormProps) (st : FormState) (h : heap)
    : result unit * world :=
  Form.submit G P (World h st []).

Definition with_lodash : globals := {| lodash_global := true |}.

(** The scope the module of [Form] sets up by itself: no binding for [_]. *)
Definition module_scope : globals := {| lodash_global := false |}.

(** *** A form whose validator answers [{name: "required"}] *)

Module Required.

Definition validate (h : heap) (schema values : val) : outcome * heap :=
  let '(l, h') := alloc h (plain {[ "name" := VStr "required" ]}) in
  (Resolved (VRef l), h').

Definition submit (h : heap) (values : val) : outcome * heap :=
  (Resolved (VStr "saved"), h).

Definition h : heap :=
  {[ 1%positive := plain ∅;
     2%positive := plain ∅;
     40%positive := plain {[ "name" := VRef 41%positive ]};
     41%positive := plain {[ "type" := VStr "string" ]};
     42%positive := plain ∅ ]}.

Definition P : FormProps :=
  {| f_schema := VRef 40%positive; f_render := VUndef; f_value := VUndef;
     f_fields := None; f_showLabels := VUndef; f_fieldComponents := VUndef;
     f_validate := validate; f_submit := submit; f_afterSubmit := None |}.

Definition st : FormState := {| values := VRef 42%positive; errors := VNull |}.

End Required.

Ltac unfold_M :=
  unfold run_submit, Form.submit, mbind, M_bind, bind, mret, M_ret, ret, throw,
    get_state, get_heap, setState_errors, new_object, await, try_catch,
    resolve_lodash in *;
  simpl in *.

Ltac steps H := rewrite H; simpl.

(** Membership of an event in an explicit trace. *)
Ltac in_trace H :=
  apply list_elem_of_In in H; simpl in H;
  intuition (try discriminate; try congruence).

(** *** A form that validates, with a submit function and an [afterSubmit] *)

Module Saved.

Definition validate (h : heap) (schema values : val) : outcome * heap :=
  let '(l, h') := alloc h (plain ∅) in (Resolved (VRef l), h').

Definition submit (h : heap) (values : val) : outcome * heap :=
  (Resolved (VStr "saved"), h).

(** A submit function that rejects with [{summaryError: "failed"}]. *)
Definition failing_submit (h : heap) (values : val) : outcome * heap :=
  let '(l, h') := alloc h (plain {[ "summaryError" := VStr "failed" ]}) in
  (Rejected (VRef l), h').

Definition afterSubmit (h : heap) (values res : val) : outcome * heap :=
  (Resolved VUndef, h).

Definition P : FormProps :=
  {| f_schema := VRef 40%positive; f_render := VUndef; f_value := VUndef;
     f_fields := None; f_showLabels := VUndef; f_fieldComponents := VUndef;
     f_validate := validate; f_submit := submit;
     f_afterSubmit := Some afterSubmit |}.

Definition P_failing : FormProps :=
  {| f_schema := VRef 40%positive; f_render := VUndef; f_value := VUndef;
     f_fields := None; f_showLabels := VUndef; f_fieldComponents := VUndef;
     f_validate := validate; f_submit := failing_submit;
     f_afterSubmit := Some afterSubmit |}.

End Saved.

(** What is known of a cycle in which the submit function has been called
    with [vs]; [h2] is the store the submit function leaves. *)
Definition after_submitter (G : globals) (P : FormProps) (st : FormState) (h : heap)
    (vs : val) (out : outcome) (h2 : heap) : Prop :=
  let called := [SetErrors VNull; CallValidate (f_schema P) vs; CallSubmit vs] in
  match out with
  | Rejected e =>
      run_submit G P st h
      = (Ok tt, World h2 {| values := vs; errors := e |} (called ++ [SetErrors e]))
  | Resolved res =>
      match f_afterSubmit P with
      | None =>
          run_submit G P st h
          = (Ok tt, World h2 {| values := vs; errors := VNull |} called)
      | Some afterSubmit =>
          ∃ out' h3,
            afterSubmit h2 vs res = (out', h3)
            ∧ run_submit G P st h
              = (match out' with Resolved _ => Ok tt | Rejected e => Throw e end,
                 World h3 {| values := vs; errors := VNull |}
                       (called ++ [CallAfterSubmit vs res]))
      end
  end.



(** *** A value tree with a nested branch *)

Module Address.

Definition h : heap :=
  {[ 1%positive := plain ∅;
     2%positive := plain ∅;
     50%positive := plain {[ "address" := VRef 51%positive; "name" := VRef 52%positive ]};
     51%positive := plain {[ "city" := VRef 53%positive; "zip" := VRef 54%positive ]};
     52%positive := plain {[ "type" := VStr "string" ]};
     53%positive := plain {[ "type" := VStr "string" ]};
     54%positive := plain {[ "type" := VStr "string" ]};
     60%positive := plain {[ "address" := VRef 61%positive; "name" := VStr "Ann" ]};
     61%positive := plain {[ "city" := VStr "Paris"; "zip" := VStr "75001" ]} ]}.

Definition P : props :=
  {| p_schema := VRef 50%positive; p_render := VUndef;
     p_value := VRef 60%positive; p_onChange := VFun "listener";
     p_error := VUndef; p_errors := VUndef; p_readOnly := VUndef;
     p_showLabels := VUndef; p_fieldTypes := VUndef;
     p_fieldComponents := VUndef; p_fields := None; p_fieldsContext := VUndef;
     p_fieldComponentProps := VUndef |}.

End Address.

(** *** Stores without dangling references *)

(** A value that is not a reference, or a reference to an object of the
    store. *)
Definition val_in (h : heap) (v : val) : Prop :=
  match v with
  | VRef l => is_Some (h !! l)
  | _ => True
  end.

#[global] Instance val_in_dec h v : Decision (val_in h v).
Proof. destruct v; simpl; apply _. Defined.

(** Every reference held by an object of the store leads to an object of the
    store. *)
Definition closed (h : heap) : Prop :=
  map_Forall (λ _ o, map_Forall (λ _ v, val_in h v) (o_props o)) h.

(** [Array.prototype.join('.')] on the keys of a path. *)
Fixpoint join_dot (keys : list string) : string :=
  match keys with
  | [] => ""
  | [key] => key
  | key :: rest => key ++ "." ++ join_dot rest
  end.

Fixpoint has_dot (s : string) : bool :=
  match s with
  | EmptyString => false
  | String c s' => Ascii.eqb c "."%char || has_dot s'
  end.

(** *** The submit cycle, outcome by outcome *)

(** The calls of a trace, without the state updates. *)
Definition is_call (e : event) : bool :=
  match e with
  | SetErrors _ => false
  | _ => true
  end.

Definition calls (trace : list event) : list event := List.filter is_call trace.

(** The outcomes of a cycle, one by one. *)
Inductive cycle_end (G : globals) (P : FormProps) (st : FormState) (h : heap)
    : result unit → world → Prop :=
| end_validator_rejects e h1 :
    f_validate P h (f_schema P) (values st) = (Rejected e, h1) →
    cycle_end G P st h (Throw e)
      (World h1 {| values := values st; errors := VNull |}
             [SetErrors VNull; CallValidate (f_schema P) (values st)])
| end_no_lodash fe h1 :
    lodash_global G = false →
    f_validate P h (f_schema P) (values st) = (Resolved fe, h1) →
    cycle_end G P st h (Throw (VError (ReferenceError "_")))
      (World h1 {| values := values st; errors := VNull |}
             [SetErrors VNull; CallValidate (f_schema P) (values st)])
| end_validation_fails fe h1 l :
    lodash_global G = true →
    f_validate P h (f_schema P) (values st) = (Resolved fe, h1) →
    lodash.isEmpty h1 fe = false →
    h1 !! l = None →
    cycle_end G P st h (Ok tt)
      (World (<[l := plain {[ "fieldErrors" := fe ]}]> h1)
             {| values := values st; errors := VRef l |}
             [SetErrors VNull; CallValidate (f_schema P) (values st);
              SetErrors (VRef l)])
| end_submit_rejects fe h1 e h2 :
    lodash_global G = true →
    f_validate P h (f_schema P) (values st) = (Resolved fe, h1) →
    lodash.isEmpty h1 fe = true →
    f_submit P h1 (values st) = (Rejected e, h2) →
    cycle_end G P st h (Ok tt)
      (World h2 {| values := values st; errors := e |}
             [SetErrors VNull; CallValidate (f_schema P) (values st);
              CallSubmit (values st); SetErrors e])
| end_submitted fe h1 res h2 :
    lodash_global G = true →
    f_validate P h (f_schema P) (values st) = (Resolved fe, h1) →
    lodash.isEmpty h1 fe = true →
    f_submit P h1 (values st) = (Resolved res, h2) →
    f_afterSubmit P = None →
    cycle_end G P st h (Ok tt)
      (World h2 {| values := values st; errors := VNull |}
             [SetErrors VNull; CallValidate (f_schema P) (values st);
              CallSubmit (values st)])
| end_after_submit fe h1 res h2 afterSubmit out h3 :
    lodash_global G = true →
    f_validate P h (f_schema P) (values st) = (Resolved fe, h1) →
    lodash.isEmpty h1 fe = true →
    f_submit P h1 (values st) = (Resolved res, h2) →
    f_afterSubmit P = Some afterSubmit →
    afterSubmit h2 (values st) res = (out, h3) →
    cycle_end G P st h
      (match out with Resolved _ => Ok tt | Rejected e => Throw e end)
      (World h3 {| values := values st; errors := VNull |}
             [SetErrors VNull; CallValidate (f_schema P) (values st);
              CallSubmit (values st); CallAfterSubmit (values st) res]).

#[global] Instance closed_dec h : Decision (closed h).
Proof. unfold closed. apply _. Defined.

(** *** Data of the examples *)

(** A form whose validator rejects. *)
Module Rejecting.

Definition validate (h : heap) (schema values : val) : outcome * heap :=
  (Rejected (VStr "offline"), h).

Definition P : FormProps :=
  {| f_schema := VRef 40%positive; f_render := VUndef; f_value := VUndef;
     f_fields := None; f_showLabels := VUndef; f_fieldComponents := VUndef;
     f_validate := validate; f_submit := Required.submit; f_afterSubmit := None |}.

End Rejecting.

(** The field [address.city] of [Address], resolved. *)
Definition Address_city : FieldData :=
  {| fieldPath := Some ["address"; "city"]; fieldPathString := Some "address.city";
     fieldSchema := VRef 53%positive; fieldError := VUndef;
     fieldType := VUndef; value := VStr "Paris";
     onChange := VOnChange (Some ["address"; "city"]) (Some "address.city") |}.

(** The properties and the store that [renderFields] makes of the schema
    with the keys z, a, m. *)
Definition ZAM_props : props := (renderFields ZAM.h ZAM.schema ZAM.options VUndef).1.
Definition ZAM_store : heap := (renderFields ZAM.h ZAM.schema ZAM.options VUndef).2.


(** The field [name] of [Overlap], rendered without extra properties. *)
Definition Overlap_rendered : node :=
  NHost "div" (VStr "name") [NNull; NComponent (VFun "TextInput") Overlap.merged].

(** The whole of the z, a, m schema, rendered with names as titles. *)
Definition ZAM_rendered : node :=
  Eval vm_compute in
    match Fields.renderAllFields (λ name, name) ZAM_props ZAM_store with
    | Ok n => n
    | Throw _ => NNull
    end.

(** The properties and the store that [renderFields] makes of [Overlap],
    whose options carry a type registry. *)
Definition Overlap_props : props :=
  (renderFields Overlap.h (VRef 20%positive) Overlap.P VUndef).1.
Definition Overlap_store : heap :=
  (renderFields Overlap.h (VRef 20%positive) Overlap.P VUndef).2.

(** The stores that the functions of [Required] and [Saved] leave. *)
Definition Required_validated : heap :=
  (Required.validate Required.h (VRef 40%positive) (VRef 42%positive)).2.
Definition Saved_validated : heap :=
  (Saved.validate Required.h (VRef 40%positive) (VRef 42%positive)).2.
Definition Saved_rejected : heap :=
  (Saved.failing_submit Saved_validated (VRef 42%positive)).2.

(** * Properties *)

(** ** Direct nested lookup *)

Lemma lookup_prop_nullish h v k : nullish v = true → lookup_prop h v k = None.
Proof. by destruct v. Qed.

Lemma baseGet_loop_undef h path :
  default VUndef (lodash.baseGet_loop h VUndef path) = VUndef.
Proof. by destruct path. Qed.

Lemma baseGet_loop_nested h path : ∀ v,
  default VUndef (lodash.baseGet_loop h v path)
  = default VUndef (nested_lookup h v path).
Proof.
  induction path as [|k rest IH]; intros v; [done|].
  simpl. destruct (nullish v) eqn:Hn.
  - by rewrite lookup_prop_nullish.
  - rewrite IH. unfold get_prop.
    destruct (lookup_prop h v k) as [x|]; [done|].
    simpl. rewrite <- IH. apply baseGet_loop_undef.
Qed.

(** [_.get] on a path that is not empty is direct nested lookup, with
    [undefined] for what is missing. *)
Lemma get_nested_lookup h v path :
  path ≠ [] → lodash.get h v path = default VUndef (nested_lookup h v path).
Proof.
  intros Hne. unfold lodash.get, lodash.baseGet.
  destruct path as [|k rest]; [done|].
  destruct (nullish v) eqn:Hn.
  - simpl. by rewrite lookup_prop_nullish.
  - apply baseGet_loop_nested.
Qed.

Lemma get_empty_path h v : lodash.get h v [] = VUndef.
Proof. unfold lodash.get. by destruct (nullish v). Qed.

Lemma split_dot_nonempty s : split_dot s ≠ [].
Proof.
  destruct s as [|c s]; [done|]. simpl.
  destruct (Ascii.eqb c "."); [done|]. by destruct (split_dot s).
Qed.

(** The schema entry that [getFieldData] tests is the definition at the
    path. *)
Lemma get_definition_at h schema path :
  definition_at h schema path
  = if truthy (lodash.get h schema path) then Some (lodash.get h schema path) else None.
Proof.
  destruct path as [|k rest] eqn:E.
  - by rewrite get_empty_path.
  - rewrite get_nested_lookup by done. unfold definition_at.
    destruct (nested_lookup h schema (k :: rest)) as [d|]; done.
Qed.

Lemma getFieldData_path P h arg path fps :
  Fields.normalize arg = (Some path, fps) → resolves P h arg path fps.
Proof.
  intros Hn. unfold resolves, Fields.getFieldData. rewrite Hn.
  rewrite get_definition_at.
  destruct (truthy (lodash.get h (p_schema P) path)) eqn:Ht; simpl; [|done].
  eexists; split; [done|]. simpl.
  assert (path ≠ []) as Hne.
  { intros ->. by rewrite get_empty_path in Ht. }
  by rewrite !get_nested_lookup.
Qed.

(** The two plain cases: an object found at the path is returned as the
    definition; a path along which a key is missing fails. *)
Lemma getFieldData_object_entry P h arg path fps l :
  Fields.normalize arg = (Some path, fps) →
  path ≠ [] →
  nested_lookup h (p_schema P) path = Some (VRef l) →
  ∃ fd, Fields.getFieldData P h arg = Ok fd
    ∧ fieldSchema fd = VRef l
    ∧ value fd = default VUndef (nested_lookup h (p_value P) path)
    ∧ fieldError fd = default VUndef (nested_lookup h (p_error P) path).
Proof.
  intros Hn Hne Hl. pose proof (getFieldData_path P h arg path fps Hn) as Hr.
  unfold resolves, definition_at in Hr. rewrite Hl in Hr.
  by destruct path.
Qed.

Lemma getFieldData_missing_entry P h arg path fps :
  Fields.normalize arg = (Some path, fps) →
  nested_lookup h (p_schema P) path = None →
  Fields.getFieldData P h arg = Throw (VError (FieldNotDefined fps)).
Proof.
  intros Hn Hl. pose proof (getFieldData_path P h arg path fps Hn) as Hr.
  unfold resolves, definition_at in Hr. rewrite Hl in Hr.
  by destruct path.
Qed.


(** ** Dotted strings and key arrays *)

(** C7.  The dotted string "a.b" splits into the keys a, b; and for every
    schema, value tree and error tree, resolving a dotted string and resolving
    the array of its keys normalise to the same key sequence and agree on
    failure, definition, value, error and type defaults. *)
Theorem dotted_string_resolves_as_key_array :
  split_dot "a.b" = ["a"; "b"]
  ∧ ∀ (P : props) (h : heap) (s : string),
      (Fields.normalize (PathStr s)).1 = (Fields.normalize (PathArr (split_dot s))).1
      ∧ same_resolution (Fields.getFieldData P h (PathStr s))
                        (Fields.getFieldData P h (PathArr (split_dot s))).
Proof.
  split; [done|]. intros P h s. split; [done|].
  unfold same_resolution, Fields.getFieldData. simpl.
  by destruct (truthy (lodash.get h (p_schema P) (split_dot s))).
Qed.

(** The path string is the one thing the two records differ in: it is the
    string as given, and [null] for an array. *)
Lemma fieldPathString_of_resolution P h arg fd :
  Fields.getFieldData P h arg = Ok fd →
  fieldPathString fd = match arg with PathStr s => Some s | _ => None end.
Proof.
  unfold Fields.getFieldData.
  destruct (Fields.normalize arg) as [path fps] eqn:Hn.
  destruct (negb _); [done|]. intros [= <-]. simpl.
  destruct arg; simpl in Hn; congruence.
Qed.

(** The field [address.city] of [Address], by string and by array; a path
    that is not in the schema; the empty array. *)
Lemma getFieldData_examples :
  (∃ fa fb,
      Fields.getFieldData Address.P Address.h (PathStr "address.city") = Ok fa
      ∧ Fields.getFieldData Address.P Address.h (PathArr ["address"; "city"]) = Ok fb
      ∧ fieldSchema fa = VRef 53%positive ∧ fieldSchema fb = VRef 53%positive
      ∧ value fa = VStr "Paris" ∧ value fb = VStr "Paris"
      ∧ fieldError fa = VUndef ∧ fieldError fb = VUndef
      ∧ fieldPathString fa = Some "address.city" ∧ fieldPathString fb = None)
  ∧ Fields.getFieldData Address.P Address.h (PathStr "address.street")
    = Throw (VError (FieldNotDefined (Some "address.street")))
  ∧ Fields.getFieldData Address.P Address.h (PathArr [])
    = Throw (VError (FieldNotDefined None)).
Proof.
  split; [|split; vm_compute; reflexivity].
  eexists _, _. split; [vm_compute; reflexivity|].
  split; [vm_compute; reflexivity|].
  repeat split; reflexivity.
Qed.

(** ** Precedence of the component properties *)

Lemma lookup_spread target source k :
  spread target source !! k
  = match source !! k with Some v => Some v | None => target !! k end.
Proof.
  unfold spread. destruct (source !! k) as [v|] eqn:Hs.
  - by apply lookup_union_Some_l.
  - by apply lookup_union_r.
Qed.

Lemma getFieldData_truthy P h arg fd :
  Fields.getFieldData P h arg = Ok fd → truthy (fieldSchema fd) = true.
Proof.
  unfold Fields.getFieldData. destruct (Fields.normalize arg) as [path fps].
  destruct (truthy _) eqn:Ht; simpl; [|done]. by intros [= <-].
Qed.

Lemma truthy_not_nullish v : truthy v = true → nullish v = false.
Proof. by destruct v. Qed.

Lemma getPropsForFieldData_lookup P h fd :
  nullish (fieldSchema fd) = false →
  ∃ props, Fields.getPropsForFieldData P h fd = Ok props
    ∧ ∀ k, props !! k
           = first_of [Fields.type_props h fd; Fields.field_props h fd;
                       Fields.global_props P h; Fields.base_props h fd] k.
Proof.
  intros Hn. unfold Fields.getPropsForFieldData. rewrite Hn.
  eexists; split; [done|]. intros k. simpl.
  rewrite !lookup_spread.
  by destruct (Fields.type_props h fd !! k), (Fields.field_props h fd !! k),
              (Fields.global_props P h !! k), (Fields.base_props h fd !! k).
Qed.


Lemma Overlap_resolved :
  Fields.getFieldData Overlap.P Overlap.h (PathStr "name") = Ok Overlap.fd.
Proof. vm_compute. reflexivity. Qed.

Lemma Overlap_merged_props :
  Fields.propsFor Overlap.P Overlap.h (PathStr "name") = Ok Overlap.merged.
Proof. vm_compute. reflexivity. Qed.


(** C6, as stated, fails: for the field [name] of [Overlap] the key [value]
    is in the base properties (the resolved value, Ann) and in the global
    properties (G), and the component receives G. *)
Lemma base_props_do_not_win :
  Fields.propsFor Overlap.P Overlap.h (PathStr "name") = Ok Overlap.merged
  ∧ Fields.base_props Overlap.h Overlap.fd !! "value" = Some (VStr "Ann")
  ∧ Fields.global_props Overlap.P Overlap.h !! "value" = Some (VStr "G")
  ∧ Overlap.merged !! "value" = Some (VStr "G")
  ∧ ¬ base_first_precedence.
Proof.
  split; [apply Overlap_merged_props|].
  split; [vm_compute; reflexivity|].
  split; [vm_compute; reflexivity|].
  split; [vm_compute; reflexivity|].
  intros H.
  specialize (H _ _ _ _ _ Overlap_resolved Overlap_merged_props "value").
  vm_compute in H. discriminate H.
Qed.

(** C6, amended.  For every resolved field and every key: a key of the type
    registry properties wins over everything; a key of the field-level
    properties wins over the global and the base properties; a key of the
    global properties wins over the base properties; the base properties
    decide only the keys that no other level has. *)
Theorem props_precedence_type_field_global_base
    (P : props) (h : heap) (arg : path_arg) (fd : FieldData)
    (props : gmap string val) (k : string) :
  Fields.getFieldData P h arg = Ok fd →
  Fields.propsFor P h arg = Ok props →
  (∀ v, Fields.type_props h fd !! k = Some v → props !! k = Some v)
  ∧ (∀ v, Fields.type_props h fd !! k = None →
          Fields.field_props h fd !! k = Some v → props !! k = Some v)
  ∧ (∀ v, Fields.type_props h fd !! k = None →
          Fields.field_props h fd !! k = None →
          Fields.global_props P h !! k = Some v → props !! k = Some v)
  ∧ (Fields.type_props h fd !! k = None →
     Fields.field_props h fd !! k = None →
     Fields.global_props P h !! k = None →
     props !! k = Fields.base_props h fd !! k).
Proof.
  intros Hfd Hprops.
  unfold Fields.propsFor in Hprops. rewrite Hfd in Hprops.
  destruct (getPropsForFieldData_lookup P h fd) as (props' & Hp' & Hk).
  { apply truthy_not_nullish. by eapply getFieldData_truthy. }
  rewrite Hprops in Hp'. injection Hp' as ->.
  rewrite Hk. simpl.
  repeat split.
  - by intros v ->.
  - by intros v -> ->.
  - by intros v -> -> ->.
  - intros -> -> ->. by destruct (Fields.base_props h fd !! k).
Qed.

Lemma props_precedence_type_field_global_base_witness :
  Fields.getFieldData Overlap.P Overlap.h (PathStr "name") = Ok Overlap.fd
  ∧ Fields.propsFor Overlap.P Overlap.h (PathStr "name") = Ok Overlap.merged
  ∧ (∀ v, Fields.type_props Overlap.h Overlap.fd !! "schema" = Some v →
          Overlap.merged !! "schema" = Some v)
  ∧ (∀ v, Fields.type_props Overlap.h Overlap.fd !! "schema" = None →
          Fields.field_props Overlap.h Overlap.fd !! "schema" = Some v →
          Overlap.merged !! "schema" = Some v)
  ∧ (∀ v, Fields.type_props Overlap.h Overlap.fd !! "schema" = None →
          Fields.field_props Overlap.h Overlap.fd !! "schema" = None →
          Fields.global_props Overlap.P Overlap.h !! "schema" = Some v →
          Overlap.merged !! "schema" = Some v)
  ∧ (Fields.type_props Overlap.h Overlap.fd !! "schema" = None →
     Fields.field_props Overlap.h Overlap.fd !! "schema" = None →
     Fields.global_props Overlap.P Overlap.h !! "schema" = None →
     Overlap.merged !! "schema" = Fields.base_props Overlap.h Overlap.fd !! "schema").
Proof.
  split; [vm_compute; reflexivity|].
  split; [vm_compute; reflexivity|].
  apply (props_precedence_type_field_global_base
           Overlap.P Overlap.h (PathStr "name") Overlap.fd Overlap.merged "schema");
    vm_compute; reflexivity.
Defined.

(** ** Order of the fields in [renderAllFields] *)

Lemma ascii_compare_lt a b : Ascii.compare a b = Lt ↔ (N_of_ascii a < N_of_ascii b)%N.
Proof. unfold Ascii.compare. apply N.compare_lt_iff. Qed.

Lemma ascii_compare_gt a b : Ascii.compare a b = Gt ↔ (N_of_ascii b < N_of_ascii a)%N.
Proof. unfold Ascii.compare. apply N.compare_gt_iff. Qed.

Lemma string_leb_cons a s b t :
  String.leb (String a s) (String b t) = true
  ↔ (N_of_ascii a < N_of_ascii b)%N ∨ (a = b ∧ String.leb s t = true).
Proof.
  unfold String.leb. simpl.
  destruct (Ascii.compare a b) eqn:E.
  - apply Ascii.compare_eq_iff in E as ->. split; [by right|].
    intros [Hlt|[_ ?]]; [lia|done].
  - apply ascii_compare_lt in E. split; [by left|done].
  - apply ascii_compare_gt in E. split; [done|].
    intros [Hlt|[-> _]]; lia.
Qed.

#[global] Instance string_le_trans : Transitive lodash.string_le.
Proof.
  unfold lodash.string_le. intros a.
  induction a as [|x a IH]; intros [|y b] [|z c]; try done.
  rewrite !string_leb_cons.
  intros [?|[-> ?]] [?|[-> ?]]; [left; lia|by left|by left|].
  right. split; [done|]. by eapply IH.
Qed.

#[global] Instance string_le_total : Total lodash.string_le.
Proof. intros a b. apply String.leb_total. Qed.

#[global] Instance string_le_antisymm : AntiSymm (=) lodash.string_le.
Proof. intros a b. apply String.leb_antisym. Qed.

Lemma sortBy_Sorted names : Sorted lodash.string_le (lodash.sortBy names).
Proof. apply Sorted_merge_sort, _. Qed.

Lemma sortBy_Permutation names : lodash.sortBy names ≡ₚ names.
Proof. apply merge_sort_Permutation. Qed.

(** The result of [_.sortBy] does not depend on the order in which the names
    are enumerated. *)
Lemma sortBy_enumeration names names' :
  names ≡ₚ names' → lodash.sortBy names = lodash.sortBy names'.
Proof.
  intros Hp. apply (Sorted_unique lodash.string_le); try apply sortBy_Sorted.
  by rewrite !sortBy_Permutation.
Qed.

Lemma keys_NoDup h v : NoDup (lodash.keys h v).
Proof. apply NoDup_fst_map_to_list. Qed.

Lemma elem_of_keys h v k : k ∈ lodash.keys h v ↔ is_Some (own_enumerable h v !! k).
Proof.
  unfold lodash.keys. rewrite list_elem_of_fmap. split.
  - intros ([k' x] & -> & Hin). apply elem_of_map_to_list in Hin. by exists x.
  - intros [x Hx]. exists (k, x). split; [done|]. by apply elem_of_map_to_list.
Qed.

Lemma map_result_Ok {A B} (f : A → result B) l ys :
  map_result f l = Ok ys → Forall2 (λ x y, f x = Ok y) l ys.
Proof.
  revert ys. induction l as [|x l IH]; intros ys; simpl.
  - intros [= <-]. constructor.
  - destruct (f x) as [y|] eqn:Hy; simpl; [|done].
    destruct (map_result f l) as [ys'|]; simpl; [|done].
    intros [= <-]. constructor; [done|]. by apply IH.
Qed.

Lemma renderItem_key titleize P h name item :
  Fields.renderItem titleize P h name = Ok item → node_key item = VStr name.
Proof.
  unfold Fields.renderItem.
  destruct (member h (p_schema P) name) as [entry|]; simpl; [|done].
  destruct (member h entry "title") as [title|]; simpl; [|done].
  destruct (Fields.renderField _ _ _ _ _); simpl; [|done].
  by intros [= <-].
Qed.

(** C8.  [renderAllFields] renders one item per field name, in the order of
    the list it maps over.  That list is the [fields] list when one is
    supplied; otherwise it is the keys of the schema in ascending
    lexicographic order: sorted, a rearrangement of the keys, and the same
    whatever the order in which the keys are enumerated.  A schema with the
    keys z, a, m and no [fields] list renders a, m, z. *)
Theorem renderAllFields_order (titleize : string → string) :
  (∀ (P : props) (h : heap),
      match p_fields P with
      | Some fields => Fields.sortedFieldNames P h = fields
      | None =>
          Sorted lodash.string_le (Fields.sortedFieldNames P h)
          ∧ Fields.sortedFieldNames P h ≡ₚ lodash.keys h (p_schema P)
          ∧ ∀ names, names ≡ₚ lodash.keys h (p_schema P) →
              lodash.sortBy names = Fields.sortedFieldNames P h
      end
      ∧ ∀ n, Fields.renderAllFields titleize P h = Ok n →
          ∃ items, n = NHost "div" VUndef items
            ∧ Forall2 (λ name item, Fields.renderItem titleize P h name = Ok item)
                      (Fields.sortedFieldNames P h) items
            ∧ node_key <$> items = VStr <$> Fields.sortedFieldNames P h)
  ∧ (let '(P, h) := renderFields ZAM.h ZAM.schema ZAM.options VUndef in
     Fields.sortedFieldNames P h = ["a"; "m"; "z"]
     ∧ ∃ items, Fields.renderAllFields titleize P h = Ok (NHost "div" VUndef items)
         ∧ node_key <$> items = [VStr "a"; VStr "m"; VStr "z"]).
Proof.
  split.
  - intros P h. split.
    + unfold Fields.sortedFieldNames. destruct (p_fields P) as [fields|]; [done|].
      split; [apply sortBy_Sorted|]. split; [apply sortBy_Permutation|].
      intros names Hp. by apply sortBy_enumeration.
    + intros n. unfold Fields.renderAllFields.
      destruct (map_result _ _) as [items|] eqn:Hitems; simpl; [|done].
      intros [= <-]. exists items. split; [done|].
      apply map_result_Ok in Hitems. split; [done|].
      induction Hitems as [|name item names items Hitem _ IH]; [done|].
      simpl. f_equal; [|done]. by eapply renderItem_key.
  - vm_compute. split; [reflexivity|]. eexists. split; reflexivity.
Qed.

(** ** The submit cycle *)

(** What the cycle does up to the answer of the validator. *)
Lemma submit_validator_rejects G P st h e h1 :
  f_validate P h (f_schema P) (values st) = (Rejected e, h1) →
  run_submit G P st h
  = (Throw e,
     World h1 {| values := values st; errors := VNull |}
           [SetErrors VNull; CallValidate (f_schema P) (values st)]).
Proof. intros Hv. unfold_M. steps Hv. done. Qed.

(** Without a binding for [_], the cycle ends in a [ReferenceError] as soon
    as the validator has answered, whatever the answer. *)
Lemma submit_without_lodash G P st h fe h1 :
  lodash_global G = false →
  f_validate P h (f_schema P) (values st) = (Resolved fe, h1) →
  run_submit G P st h
  = (Throw (VError (ReferenceError "_")),
     World h1 {| values := values st; errors := VNull |}
           [SetErrors VNull; CallValidate (f_schema P) (values st)]).
Proof. intros HG Hv. unfold_M. steps Hv. steps HG. done. Qed.

(** With lodash bound to [_], a mapping that is not empty stops the cycle:
    the error state is a new object [{fieldErrors}] and the submit function
    is not called. *)
Lemma submit_validation_fails G P st h fe h1 :
  lodash_global G = true →
  f_validate P h (f_schema P) (values st) = (Resolved fe, h1) →
  lodash.isEmpty h1 fe = false →
  ∃ l, (l ∉ dom h1)
    ∧ run_submit G P st h
      = (Ok tt,
         World (<[l := plain {[ "fieldErrors" := fe ]}]> h1)
               {| values := values st; errors := VRef l |}
               [SetErrors VNull; CallValidate (f_schema P) (values st);
                SetErrors (VRef l)]).
Proof.
  intros HG Hv He. exists (fresh (dom h1)). split; [apply is_fresh|].
  unfold_M. steps Hv. steps HG. steps He. done.
Qed.

(** With lodash bound to [_], an empty mapping lets the cycle reach the
    submit function; the three ways it can go on. *)
Lemma submit_rejected G P st h fe h1 e h2 :
  lodash_global G = true →
  f_validate P h (f_schema P) (values st) = (Resolved fe, h1) →
  lodash.isEmpty h1 fe = true →
  f_submit P h1 (values st) = (Rejected e, h2) →
  run_submit G P st h
  = (Ok tt,
     World h2 {| values := values st; errors := e |}
           [SetErrors VNull; CallValidate (f_schema P) (values st);
            CallSubmit (values st); SetErrors e]).
Proof. intros HG Hv He Hs. unfold_M. steps Hv. steps HG. steps He. steps Hs. done. Qed.

Lemma submit_resolved_no_hook G P st h fe h1 res h2 :
  lodash_global G = true →
  f_validate P h (f_schema P) (values st) = (Resolved fe, h1) →
  lodash.isEmpty h1 fe = true →
  f_submit P h1 (values st) = (Resolved res, h2) →
  f_afterSubmit P = None →
  run_submit G P st h
  = (Ok tt,
     World h2 {| values := values st; errors := VNull |}
           [SetErrors VNull; CallValidate (f_schema P) (values st);
            CallSubmit (values st)]).
Proof.
  intros HG Hv He Hs Ha. unfold_M. steps Hv. steps HG. steps He. steps Hs.
  steps Ha. done.
Qed.

Lemma submit_resolved_hook G P st h fe h1 res h2 afterSubmit out h3 :
  lodash_global G = true →
  f_validate P h (f_schema P) (values st) = (Resolved fe, h1) →
  lodash.isEmpty h1 fe = true →
  f_submit P h1 (values st) = (Resolved res, h2) →
  f_afterSubmit P = Some afterSubmit →
  afterSubmit h2 (values st) res = (out, h3) →
  run_submit G P st h
  = (match out with Resolved _ => Ok tt | Rejected e => Throw e end,
     World h3 {| values := values st; errors := VNull |}
           [SetErrors VNull; CallValidate (f_schema P) (values st);
            CallSubmit (values st); CallAfterSubmit (values st) res]).
Proof.
  intros HG Hv He Hs Ha Ho. unfold_M. steps Hv. steps HG. steps He. steps Hs.
  steps Ha. steps Ho. by destruct out.
Qed.


(** C2, at the failing input: the module of [Form] does not import lodash, so
    in the scope it sets up the cycle of a form whose validator answers
    [{name: "required"}] clears the error state, calls the validator, and
    then ends in [ReferenceError: _ is not defined]: the error state is still
    [null], not [{fieldErrors: {name: "required"}}]. *)
Theorem submit_without_lodash_import :
  ∃ fe h1,
    Required.validate Required.h (f_schema Required.P) (values Required.st)
    = (Resolved fe, h1)
    ∧ lodash.get h1 fe ["name"] = VStr "required"
    ∧ lodash.isEmpty h1 fe = false
    ∧ run_submit module_scope Required.P Required.st Required.h
      = (Throw (VError (ReferenceError "_")),
         World h1 {| values := values Required.st; errors := VNull |}
               [SetErrors VNull;
                CallValidate (f_schema Required.P) (values Required.st)]).
Proof.
  eexists _, _. split; [reflexivity|].
  split; [vm_compute; reflexivity|].
  split; [vm_compute; reflexivity|].
  by eapply submit_without_lodash.
Qed.

(** C3.  In every submit cycle that reaches the submit function, the function
    is called with the values of the state, and: if it rejects, the cycle
    stores the rejection value itself as the error state, does not call
    [afterSubmit] and completes normally; if it resolves, the error state
    stays [null] and [afterSubmit], when there is one, is called once, with
    the values and the result, as the last step; when [afterSubmit] rejects,
    the cycle rejects with the same value. *)
Theorem submit_function_outcome (G : globals) (P : FormProps) (st : FormState)
    (h : heap) (vs : val) :
  CallSubmit vs ∈ w_trace (run_submit G P st h).2 →
  vs = values st
  ∧ ∃ fe h1 out h2,
      f_validate P h (f_schema P) vs = (Resolved fe, h1)
      ∧ f_submit P h1 vs = (out, h2)
      ∧ after_submitter G P st h vs out h2.
Proof.
  intros Hin.
  destruct (f_validate P h (f_schema P) (values st)) as [[fe|e] h1] eqn:Hv.
  2:{ erewrite submit_validator_rejects in Hin by done. in_trace Hin. }
  destruct (lodash_global G) eqn:HG.
  2:{ erewrite submit_without_lodash in Hin by done. in_trace Hin. }
  destruct (lodash.isEmpty h1 fe) eqn:He.
  2:{ destruct (submit_validation_fails G P st h fe h1) as (l & _ & Hrun); try done.
      rewrite Hrun in Hin. in_trace Hin. }
  destruct (f_submit P h1 (values st)) as [out h2] eqn:Hs.
  assert (vs = values st) as ->.
  { destruct out as [res|e].
    - destruct (f_afterSubmit P) as [afterSubmit|] eqn:Ha.
      + destruct (afterSubmit h2 (values st) res) as [out' h3] eqn:Ho.
        erewrite submit_resolved_hook in Hin by done. in_trace Hin.
      + erewrite submit_resolved_no_hook in Hin by done. in_trace Hin.
    - erewrite submit_rejected in Hin by done. in_trace Hin. }
  split; [done|]. exists fe, h1, out, h2. split; [done|]. split; [done|].
  unfold after_submitter. destruct out as [res|e].
  - destruct (f_afterSubmit P) as [afterSubmit|] eqn:Ha.
    + destruct (afterSubmit h2 (values st) res) as [out' h3] eqn:Ho.
      exists out', h3. split; [done|]. by eapply submit_resolved_hook.
    + by eapply submit_resolved_no_hook.
  - by eapply submit_rejected.
Qed.

Lemma submit_function_outcome_witness :
  CallSubmit (VRef 42%positive)
    ∈ w_trace (run_submit with_lodash Saved.P Required.st Required.h).2
  ∧ VRef 42%positive = values Required.st
  ∧ ∃ fe h1 out h2,
      f_validate Saved.P Required.h (f_schema Saved.P) (VRef 42%positive)
      = (Resolved fe, h1)
      ∧ f_submit Saved.P h1 (VRef 42%positive) = (out, h2)
      ∧ after_submitter with_lodash Saved.P Required.st Required.h
          (VRef 42%positive) out h2.
Proof.
  split.
  - apply (bool_decide_unpack _). vm_compute. exact I.
  - apply (submit_function_outcome with_lodash Saved.P Required.st Required.h).
    apply (bool_decide_unpack _). vm_compute. exact I.
Defined.

(** A submit function that rejects with [{summaryError: "failed"}]: the error
    state is that very object, and [afterSubmit] is not called. *)
Lemma submit_rejection_stored :
  ∃ l h2,
    h2 !! l = Some (plain {[ "summaryError" := VStr "failed" ]})
    ∧ run_submit with_lodash Saved.P_failing Required.st Required.h
      = (Ok tt,
         World h2 {| values := VRef 42%positive; errors := VRef l |}
               [SetErrors VNull; CallValidate (VRef 40%positive) (VRef 42%positive);
                CallSubmit (VRef 42%positive); SetErrors (VRef l)]).
Proof. eexists _, _. split; [|vm_compute; reflexivity]. vm_compute. reflexivity. Qed.

(** ** What [Form] hands to [Fields] *)

Lemma get_undefined h path : lodash.get h VUndef path = VUndef.
Proof. done. Qed.

Lemma form_fields_error P st h :
  p_error (Form.render P st h).1.2 = VUndef
  ∧ p_errors (Form.render P st h).1.2
    = pick (js_and (errors st) (get_prop h (errors st) "fieldErrors")).
Proof. done. Qed.

(** C9.  Whatever the state of the form, hence after every validation and
    submit outcome: the [Fields] instance rendered by [Form] has no [error]
    property, the field errors of the state being passed under the key
    [errors]; and for every field path that resolves, the field error
    resolved by [getFieldData] in that instance is [undefined]. *)
Theorem form_field_error_is_undefined (P : FormProps) (st : FormState) (h : heap)
    (arg : path_arg) :
  let '(_, fields, h') := Form.render P st h in
  p_error fields = VUndef
  ∧ p_errors fields = pick (js_and (errors st) (get_prop h (errors st) "fieldErrors"))
  ∧ match Fields.getFieldData fields h' arg with
    | Ok fd => fieldError fd = VUndef
    | Throw _ => True
    end.
Proof.
  destruct (Form.render P st h) as [[summary fields] h'] eqn:Hr.
  pose proof (form_fields_error P st h) as [He Hes].
  rewrite Hr in He, Hes. simpl in He, Hes.
  split; [done|]. split; [done|].
  unfold Fields.getFieldData.
  destruct (Fields.normalize arg) as [[path|] fps]; cbn beta iota;
    destruct (negb _); try done; cbn; rewrite He; [apply get_undefined].
Qed.

(** After a validation that failed on [name], the mapping is in the state
    and reaches [Fields] as [errors]; the error resolved for [name] is
    [undefined] all the same. *)
Lemma form_field_error_after_validation :
  let '(_, w) := run_submit with_lodash Required.P Required.st Required.h in
  let '(_, fields, h') := Form.render Required.P (w_state w) (w_heap w) in
  lodash.get h' (p_errors fields) ["name"] = VStr "required"
  ∧ ∃ fd, Fields.getFieldData fields h' (PathStr "name") = Ok fd
      ∧ fieldError fd = VUndef.
Proof. vm_compute. split; [reflexivity|]. eexists. split; reflexivity. Qed.



(** ** The change callback *)

Lemma changeField_forwards P h fieldPath fieldValue fieldPathString :
  truthy (p_onChange P) = true →
  ∃ tree, (Fields.changeField P h fieldPath fieldValue fieldPathString).2
          = Some (tree, fieldPathString, fieldValue, fieldPath).
Proof.
  intros Ht. unfold Fields.changeField.
  destruct fieldPath as [path|].
  - destruct (alloc _ _) as [l h1]. destruct (lodash.set _ _ _ _) as [tree h'].
    rewrite Ht. by eexists.
  - rewrite Ht. by eexists.
Qed.

(** A path of one key: the new tree is a new object, a copy of the top level
    of the previous tree with that key replaced; no object of the store is
    touched. *)
Lemma changeField_top_level P h key fieldValue fieldPathString :
  let l := fresh (dom h) in
  (l ∉ dom h)
  ∧ Fields.changeField P h (Some [key]) fieldValue fieldPathString
    = (<[l := plain (<[key := fieldValue]> (own_enumerable h (p_value P)))]> h,
       if truthy (p_onChange P)
       then Some (VRef l, fieldPathString, fieldValue, Some [key])
       else None).
Proof.
  simpl. split; [apply is_fresh|].
  unfold Fields.changeField, alloc, lodash.set. simpl.
  rewrite lookup_insert_eq. simpl. rewrite insert_insert_eq.
  by destruct (truthy (p_onChange P)).
Qed.

Lemma lookup_prop_ref h v key l :
  lookup_prop h v key = Some (VRef l) → own_enumerable h v !! key = Some (VRef l).
Proof.
  destruct v as [| | | |s| | | |lv]; simpl; try done.
  - destruct (String.eqb key "length"); [done|]. done.
  - destruct (h !! lv) as [o|]; [|done].
    destruct (o_array o && String.eqb key "length"); done.
Qed.

Lemma set_prop_same h l o key x :
  h !! l = Some o → o_props o !! key = Some x → set_prop h (VRef l) key x = h.
Proof.
  intros Hl Hk. unfold set_prop. rewrite Hl.
  rewrite (insert_id (o_props o)) by done.
  destruct o. by apply insert_id.
Qed.

Lemma get_prop_own h l o key x :
  h !! l = Some o → o_array o = false → o_props o !! key = Some x →
  get_prop h (VRef l) key = x.
Proof.
  intros Hl Ha Hk. unfold get_prop, lookup_prop. by rewrite Hl, Ha, Hk.
Qed.

(** One turn of the loop of [baseSet] over an object that is already
    there: nothing is written, the loop goes on inside that object. *)
Lemma baseSet_loop_through h l o key next rest value l1 :
  h !! l = Some o → o_array o = false → o_props o !! key = Some (VRef l1) →
  lodash.baseSet_loop h (VRef l) (key :: next :: rest) value
  = lodash.baseSet_loop h (VRef l1) (next :: rest) value.
Proof.
  intros Hl Ha Hk. cbn [lodash.baseSet_loop nullish].
  rewrite (get_prop_own h l o key (VRef l1)) by done. cbn [isObject].
  rewrite (set_prop_same h l o key (VRef l1)) by done.
  by rewrite (get_prop_own h l o key (VRef l1)).
Qed.

(** A path of two keys through an object that is already there: the copy
    shares that object with the previous tree, and the write goes into it. *)
Lemma changeField_writes_shared_object P h k1 k2 fieldValue fieldPathString l1 o1 :
  lookup_prop h (p_value P) k1 = Some (VRef l1) →
  h !! l1 = Some o1 →
  (Fields.changeField P h (Some [k1; k2]) fieldValue fieldPathString).1 !! l1
  = Some (Obj (o_array o1) (<[k2 := fieldValue]> (o_props o1))).
Proof.
  intros Hk1 Hl1. apply lookup_prop_ref in Hk1.
  assert (fresh (dom h) ≠ l1) as Hne.
  { intros <-. apply (is_fresh (dom h)). apply elem_of_dom. by eexists. }
  unfold Fields.changeField, alloc, lodash.set. cbn [nullish isObject].
  set (h0 := <[fresh (dom h) := plain (own_enumerable h (p_value P))]> h).
  assert (h0 !! fresh (dom h) = Some (plain (own_enumerable h (p_value P)))) as Hroot
    by apply lookup_insert_eq.
  assert (h0 !! l1 = Some o1) as Hl1' by (unfold h0; by rewrite lookup_insert_ne).
  rewrite (baseSet_loop_through h0 _ _ k1 k2 [] fieldValue l1 Hroot) by done.
  cbn [lodash.baseSet_loop nullish]. unfold set_prop. rewrite Hl1'.
  destruct (truthy (p_onChange P)); cbn [fst]; apply lookup_insert_eq.
Qed.

(** C4, at the failing input: the callback bound for [address.city] is called
    with Lyon on the tree [{address: {city: "Paris", zip: "75001"}, name:
    "Ann"}].  The listener receives a new root, the path string, the new
    value and the path, in that order; the new root shares the [address]
    object with the previous tree, and the write went into that object: the
    previous tree, which had Paris at [address.city], now has Lyon there. *)
Theorem change_callback_mutates_previous_tree :
  ∃ fd h' root,
    Fields.getFieldData Address.P Address.h (PathStr "address.city") = Ok fd
    ∧ Fields.call_onChange Address.P Address.h (onChange fd) (VStr "Lyon")
      = (h', Some (VRef root, Some "address.city", VStr "Lyon",
                   Some ["address"; "city"]))
    ∧ Address.h !! root = None
    ∧ get_prop h' (VRef root) "address"
      = get_prop Address.h (VRef 60%positive) "address"
    ∧ lodash.get Address.h (VRef 60%positive) ["address"; "city"] = VStr "Paris"
    ∧ lodash.get h' (VRef 60%positive) ["address"; "city"] = VStr "Lyon"
    ∧ lodash.get h' (VRef 60%positive) ["address"; "zip"] = VStr "75001".
Proof.
  eexists _, _, _.
  split; [vm_compute; reflexivity|].
  split; [vm_compute; reflexivity|].
  repeat split; vm_compute; reflexivity.
Qed.

(** * More of the code *)

(** ** Reading a store that has grown *)

Lemma string_chars_values i s k x :
  (k, x) ∈ string_chars i s → ∃ c, x = VStr c.
Proof.
  revert i. induction s as [|c s IH]; intros i Hin; simpl in Hin.
  - by apply elem_of_nil in Hin.
  - apply elem_of_cons in Hin as [[= _ ->]|Hin]; [by eexists|]. by eapply IH.
Qed.

Lemma own_enumerable_string_values h s k x :
  own_enumerable h (VStr s) !! k = Some x → ∃ c, x = VStr c.
Proof.
  simpl. intros Hk. apply elem_of_list_to_map_2 in Hk.
  by eapply string_chars_values.
Qed.

Lemma closed_lookup h l o k x :
  closed h → h !! l = Some o → o_props o !! k = Some x → val_in h x.
Proof. intros Hc Hl Hk. exact (Hc l o Hl k x Hk). Qed.

Lemma lookup_prop_val_in h v k x :
  closed h → lookup_prop h v k = Some x → val_in h x.
Proof.
  intros Hc. destruct v as [| | | |s| | | |l]; simpl; try done.
  - destruct (String.eqb k "length"); [by intros [= <-]|].
    intros Hk. by apply own_enumerable_string_values in Hk as [c ->].
  - destruct (h !! l) as [o|] eqn:Hl; [|done].
    destruct (o_array o && String.eqb k "length"); [by intros [= <-]|].
    intros Hk. by eapply closed_lookup.
Qed.

Lemma lookup_prop_extend h h' v k :
  h ⊆ h' → val_in h v → lookup_prop h' v k = lookup_prop h v k.
Proof.
  intros Hsub Hv. destruct v as [| | | |s| | | |l]; simpl; try done.
  destruct Hv as [o Hl]. rewrite Hl.
  by rewrite (lookup_weaken h h' l o).
Qed.

Lemma get_prop_val_in h v k :
  closed h → val_in h (get_prop h v k).
Proof.
  intros Hc. unfold get_prop.
  destruct (lookup_prop h v k) as [x|] eqn:Hk; [|done].
  by eapply lookup_prop_val_in.
Qed.

Lemma baseGet_loop_extend h h' path :
  closed h → h ⊆ h' → ∀ v, val_in h v →
  lodash.baseGet_loop h' v path = lodash.baseGet_loop h v path.
Proof.
  intros Hc Hsub. induction path as [|k rest IH]; intros v Hv; [done|].
  simpl. destruct (nullish v); [done|].
  unfold get_prop at 1. rewrite (lookup_prop_extend h h') by done.
  apply IH. by apply get_prop_val_in.
Qed.

(** A store without dangling references reads the same after it has grown. *)
Lemma get_extend h h' v path :
  closed h → h ⊆ h' → val_in h v →
  lodash.get h' v path = lodash.get h v path.
Proof.
  intros Hc Hsub Hv. unfold lodash.get, lodash.baseGet.
  destruct (nullish v); [done|]. destruct path; [done|].
  by rewrite (baseGet_loop_extend h h').
Qed.

(** ** Writing along a path *)

Lemma isIndex_not_length k : isIndex k = true → String.eqb k "length" = false.
Proof.
  intros Hi. destruct (String.eqb_spec k "length") as [->|]; [|done].
  by vm_compute in Hi.
Qed.

Lemma get_prop_written h l a m k x :
  (a = true → isIndex k = true) →
  h !! l = Some (Obj a (<[k := x]> m)) → get_prop h (VRef l) k = x.
Proof.
  intros Ha Hl. unfold get_prop, lookup_prop. rewrite Hl. simpl.
  destruct a; simpl.
  - rewrite isIndex_not_length by auto. by rewrite lookup_insert_eq.
  - by rewrite lookup_insert_eq.
Qed.

Lemma get_prop_empty_not_object h l a k :
  h !! l = Some (Obj a ∅) → isObject (get_prop h (VRef l) k) = false.
Proof.
  intros Hl. unfold get_prop, lookup_prop. rewrite Hl. simpl.
  by destruct (a && String.eqb k "length").
Qed.

Lemma baseSet_loop_last h l k value :
  lodash.baseSet_loop h (VRef l) [k] value = set_prop h (VRef l) k value.
Proof. done. Qed.

(** One turn of the loop of [baseSet] over a key under which there is no
    object: a new object, or a new array when the next key is an index, is
    stored under the key, and the loop goes on inside it. *)
Lemma baseSet_loop_create h l k next rest value :
  isObject (get_prop h (VRef l) k) = false →
  lodash.baseSet_loop h (VRef l) (k :: next :: rest) value
  = lodash.baseSet_loop
      (set_prop (<[fresh (dom h) := if isIndex next then array ∅ else plain ∅]> h)
                (VRef l) k (VRef (fresh (dom h))))
      (get_prop
         (set_prop (<[fresh (dom h) := if isIndex next then array ∅ else plain ∅]> h)
                   (VRef l) k (VRef (fresh (dom h))))
         (VRef l) k)
      (next :: rest) value.
Proof. intros Hobj. simpl. by rewrite Hobj. Qed.

Lemma baseGet_loop_cons h l k rest :
  lodash.baseGet_loop h (VRef l) (k :: rest)
  = lodash.baseGet_loop h (get_prop h (VRef l) k) rest.
Proof. done. Qed.

(** The loop of [baseSet] started on an object under whose first key there is
    no object: it writes that object and new ones only; afterwards the path
    leads to the value. *)
Lemma baseSet_loop_new_branch value path : ∀ h l o,
  path ≠ [] →
  h !! l = Some o →
  (o_array o = true → ∃ k rest, path = k :: rest ∧ isIndex k = true) →
  (∀ k next rest, path = k :: next :: rest →
     isObject (get_prop h (VRef l) k) = false) →
  lodash.baseGet_loop (lodash.baseSet_loop h (VRef l) path value) (VRef l) path
  = Some value
  ∧ (∀ l0, is_Some (h !! l0) → l0 ≠ l →
       lodash.baseSet_loop h (VRef l) path value !! l0 = h !! l0)
  ∧ ∃ o', lodash.baseSet_loop h (VRef l) path value !! l = Some o'
      ∧ o_array o' = o_array o
      ∧ ∀ k', (∀ rest, path ≠ k' :: rest) → o_props o' !! k' = o_props o !! k'.
Proof.
  induction path as [|k rest IH]; intros h l o Hne Hl Harr Hobj; [done|].
  assert (o_array o = true → isIndex k = true) as Hk.
  { intros Ha. destruct (Harr Ha) as (k0 & rest0 & [= <- <-] & Hi). done. }
  destruct rest as [|next rest'].
  - rewrite baseSet_loop_last. unfold set_prop. rewrite Hl.
    split; [|split].
    + rewrite baseGet_loop_cons. simpl. f_equal.
      eapply get_prop_written; [done|]. apply lookup_insert_eq.
    + intros l0 _ Hl0. by rewrite lookup_insert_ne.
    + eexists. split; [apply lookup_insert_eq|]. split; [done|].
      intros k' Hk'. simpl. rewrite lookup_insert_ne; [done|].
      intros <-. by eapply Hk'.
  - rewrite baseSet_loop_create by (by eapply Hobj).
    set (o2 := if isIndex next then array ∅ else plain ∅).
    set (l2 := fresh (dom h)).
    assert (h !! l2 = None) as Hl2.
    { apply not_elem_of_dom. apply is_fresh. }
    assert (l2 ≠ l) as Hne2 by (intros ->; congruence).
    set (h1 := <[l2 := o2]> h).
    assert (h1 !! l = Some o) as Hl1 by (unfold h1; by rewrite lookup_insert_ne).
    unfold set_prop. rewrite Hl1.
    set (h2 := <[l := Obj (o_array o) (<[k := VRef l2]> (o_props o))]> h1).
    assert (h2 !! l = Some (Obj (o_array o) (<[k := VRef l2]> (o_props o)))) as Hl2'
      by apply lookup_insert_eq.
    assert (get_prop h2 (VRef l) k = VRef l2) as Hget by (by eapply get_prop_written).
    rewrite Hget.
    assert (h2 !! l2 = Some o2) as Ho2.
    { unfold h2. rewrite lookup_insert_ne by done. apply lookup_insert_eq. }
    destruct (IH h2 l2 o2) as (Hread & Hframe & o2' & Ho2' & _); try done.
    { intros Ha. exists next, rest'. split; [done|].
      unfold o2 in Ha. by destruct (isIndex next). }
    { intros k0 next0 rest0 _. apply (get_prop_empty_not_object h2 l2 (o_array o2)).
      rewrite Ho2. unfold o2. by destruct (isIndex next). }
    set (h' := lodash.baseSet_loop h2 (VRef l2) (next :: rest') value) in *.
    assert (h' !! l = h2 !! l) as Hl'.
    { apply Hframe; [by rewrite Hl2'|done]. }
    split; [|split].
    + rewrite baseGet_loop_cons.
      rewrite (get_prop_written h' l (o_array o) (o_props o) k (VRef l2)); try done.
      by rewrite Hl'.
    + intros l0 [o0 Hl0] Hne0.
      assert (l0 ≠ l2) as Hne02 by (intros ->; congruence).
      rewrite Hframe; [|unfold h2, h1; rewrite !lookup_insert_ne by done; by eexists|done].
      unfold h2, h1. by rewrite !lookup_insert_ne.
    + eexists. split; [by rewrite Hl'|]. split; [done|].
      intros k' Hk'. simpl. rewrite lookup_insert_ne; [done|].
      intros <-. by eapply Hk'.
Qed.

(** ** [changeField] on a branch that is not shared *)

(** What [changeField] does for a path whose first key holds no object in
    the previous tree (always so for a path of one key). *)
Lemma changeField_new_branch_spec P h k rest fieldValue fieldPathString :
  (rest ≠ [] → isObject (default VUndef (own_enumerable h (p_value P) !! k)) = false) →
  ∃ h',
    Fields.changeField P h (Some (k :: rest)) fieldValue fieldPathString
    = (h', if truthy (p_onChange P)
           then Some (VRef (fresh (dom h)), fieldPathString, fieldValue, Some (k :: rest))
           else None)
    ∧ h !! fresh (dom h) = None
    ∧ h ⊆ h'
    ∧ lodash.get h' (VRef (fresh (dom h))) (k :: rest) = fieldValue
    ∧ ∀ k', k' ≠ k →
        own_enumerable h' (VRef (fresh (dom h))) !! k'
        = own_enumerable h (p_value P) !! k'.
Proof.
  intros Hno.
  set (root := fresh (dom h)).
  assert (h !! root = None) as Hroot by (apply not_elem_of_dom, is_fresh).
  set (copy := plain (own_enumerable h (p_value P))).
  set (h0 := <[root := copy]> h).
  assert (h0 !! root = Some copy) as Hcopy by apply lookup_insert_eq.
  destruct (baseSet_loop_new_branch fieldValue (k :: rest) h0 root copy)
    as (Hread & Hframe & o' & Ho' & _ & Hkeys); try done.
  { intros k0 next rest0 [= <- Hrest]. unfold get_prop, lookup_prop.
    rewrite Hcopy. simpl. apply Hno. by rewrite Hrest. }
  exists (lodash.baseSet_loop h0 (VRef root) (k :: rest) fieldValue).
  split; [|split; [done|split; [|split]]].
  - unfold Fields.changeField, alloc, lodash.set. fold root copy h0.
    cbn [nullish isObject]. by destruct (truthy (p_onChange P)).
  - apply map_subseteq_spec. intros l o Hl.
    assert (l ≠ root) as Hne by (intros ->; congruence).
    rewrite Hframe; [|unfold h0; rewrite lookup_insert_ne by done; by eexists|done].
    unfold h0. by rewrite lookup_insert_ne.
  - unfold lodash.get, lodash.baseGet. cbn [nullish]. by rewrite Hread.
  - intros k' Hk'. unfold own_enumerable at 1. rewrite Ho'.
    rewrite Hkeys; [done|]. intros rest0 [= ? _]. congruence.
Qed.


(** X2.  In a store without dangling references, after [changeField] on such
    a path the previous tree reads as before along every path. *)
Theorem changeField_keeps_previous_tree (P : props) (h : heap) (k : string)
    (rest : list string) (fieldValue : val) (fieldPathString : option string)
    (path : list string) :
  closed h →
  val_in h (p_value P) →
  (rest ≠ [] → isObject (default VUndef (own_enumerable h (p_value P) !! k)) = false) →
  lodash.get (Fields.changeField P h (Some (k :: rest)) fieldValue fieldPathString).1
             (p_value P) path
  = lodash.get h (p_value P) path.
Proof.
  intros Hc Hv Hno.
  destruct (changeField_new_branch_spec P h k rest fieldValue fieldPathString Hno)
    as (h' & Hrun & _ & Hsub & _).
  rewrite Hrun. simpl. by apply get_extend.
Qed.


(** ** The callback bound by [getFieldData] *)

Lemma getFieldData_onChange P h arg fd :
  Fields.getFieldData P h arg = Ok fd →
  onChange fd = VOnChange (Fields.normalize arg).1 (Fields.normalize arg).2.
Proof.
  unfold Fields.getFieldData.
  destruct (Fields.normalize arg) as [path fps].
  destruct (negb _); [done|]. by intros [= <-].
Qed.

(** X4.  Calling the [onChange] of a resolved field is calling [changeField]
    with the normalised path and the path string: with a listener, the
    listener receives the string as it was given together with its keys, or
    [null] together with the array; for a field resolved without a path, it
    receives the new value itself as the new tree, and the store is left as
    it is. *)
Theorem bound_callback_forwards (P : props) (h : heap) (arg : path_arg)
    (fd : FieldData) (fieldValue : val) :
  Fields.getFieldData P h arg = Ok fd →
  truthy (p_onChange P) = true →
  match arg with
  | PathStr s =>
      ∃ tree h', Fields.call_onChange P h (onChange fd) fieldValue
                 = (h', Some (tree, Some s, fieldValue, Some (split_dot s)))
  | PathArr ks =>
      ∃ tree h', Fields.call_onChange P h (onChange fd) fieldValue
                 = (h', Some (tree, None, fieldValue, Some ks))
  | PathNone =>
      Fields.call_onChange P h (onChange fd) fieldValue
      = (h, Some (fieldValue, None, fieldValue, None))
  end.
Proof.
  intros Hfd Hl. rewrite (getFieldData_onChange P h arg fd Hfd).
  destruct arg as [|s|ks]; simpl.
  - unfold Fields.changeField. by rewrite Hl.
  - destruct (changeField_forwards P h (Some (split_dot s)) fieldValue (Some s) Hl)
      as [tree Htree].
    destruct (Fields.changeField P h (Some (split_dot s)) fieldValue (Some s))
      as [h' call]. simpl in Htree. subst call. by exists tree, h'.
  - destruct (changeField_forwards P h (Some ks) fieldValue None Hl)
      as [tree Htree].
    destruct (Fields.changeField P h (Some ks) fieldValue None)
      as [h' call]. simpl in Htree. subst call. by exists tree, h'.
Qed.

(** ** Dotted strings *)

Lemma split_dot_cons c s :
  split_dot (String c s)
  = if Ascii.eqb c "."%char then EmptyString :: split_dot s
    else match split_dot s with
         | seg :: segs => String c seg :: segs
         | [] => [String c EmptyString]
         end.
Proof. done. Qed.

Lemma join_dot_cons k k' rest :
  join_dot (k :: k' :: rest) = (k ++ "." ++ join_dot (k' :: rest))%string.
Proof. done. Qed.

Lemma join_split_dot s : join_dot (split_dot s) = s.
Proof.
  induction s as [|c s IH]; [done|].
  rewrite split_dot_cons.
  destruct (Ascii.eqb_spec c "."%char) as [->|Hc].
  - destruct (split_dot s) as [|seg segs] eqn:Hs; [by apply split_dot_nonempty in Hs|].
    rewrite join_dot_cons, IH. done.
  - destruct (split_dot s) as [|seg segs] eqn:Hs; [by apply split_dot_nonempty in Hs|].
    destruct segs as [|seg' segs].
    + simpl in *. by rewrite IH.
    + rewrite join_dot_cons. rewrite join_dot_cons in IH. by rewrite <- IH.
Qed.

Lemma split_dot_no_dot s : Forall (λ k, has_dot k = false) (split_dot s).
Proof.
  induction s as [|c s IH]; [by repeat constructor|].
  rewrite split_dot_cons.
  destruct (Ascii.eqb c "."%char) eqn:Hc.
  - by constructor.
  - destruct (split_dot s) as [|seg segs]; [by repeat constructor; simpl; rewrite Hc|].
    inversion IH as [|? ? Hseg Hsegs]; subst.
    constructor; [|done]. simpl. by rewrite Hc.
Qed.

Lemma split_dot_key k : has_dot k = false → split_dot k = [k].
Proof.
  induction k as [|c k IH]; [done|]. simpl.
  destruct (Ascii.eqb c "."%char); [done|]. simpl. intros Hk. by rewrite IH.
Qed.

Lemma split_dot_app k s :
  has_dot k = false → split_dot (k ++ "." ++ s) = k :: split_dot s.
Proof.
  induction k as [|c k IH]; [done|]. simpl.
  destruct (Ascii.eqb c "."%char); [done|]. simpl. intros Hk. by rewrite IH.
Qed.

Lemma split_join_dot keys :
  keys ≠ [] → Forall (λ k, has_dot k = false) keys → split_dot (join_dot keys) = keys.
Proof.
  induction keys as [|k keys IH]; [done|]. intros _ Hall.
  inversion Hall as [|? ? Hk Hkeys]; subst.
  destruct keys as [|k' keys]; [by apply split_dot_key|].
  rewrite join_dot_cons, split_dot_app by done. by rewrite IH.
Qed.

(** X5.  The normalisation of a dotted string loses nothing and splits at
    every dot: joining the keys with dots gives the string back, and no key
    of the result has a dot in it.  So an array path with a dot inside a key
    is the normalisation of no string. *)
Theorem dotted_string_round_trip (s : string) :
  join_dot (split_dot s) = s
  ∧ Forall (λ k, has_dot k = false) (split_dot s).
Proof. split; [apply join_split_dot|apply split_dot_no_dot]. Qed.

(** X6.  A non-empty array of keys without dots is the normalisation of its
    join with dots, and [getFieldData] resolves the join as it resolves the
    array. *)
Theorem key_array_as_dotted_string (keys : list string) (P : props) (h : heap) :
  keys ≠ [] →
  Forall (λ k, has_dot k = false) keys →
  split_dot (join_dot keys) = keys
  ∧ same_resolution (Fields.getFieldData P h (PathStr (join_dot keys)))
                    (Fields.getFieldData P h (PathArr keys)).
Proof.
  intros Hne Hall. split; [by apply split_join_dot|].
  unfold same_resolution, Fields.getFieldData. simpl.
  rewrite split_join_dot by done.
  by destruct (truthy (lodash.get h (p_schema P) keys)).
Qed.

(** ** [renderField] *)

Lemma getFieldData_error P h arg e :
  Fields.getFieldData P h arg = Throw e →
  e = VError (FieldNotDefined (Fields.normalize arg).2).
Proof.
  unfold Fields.getFieldData.
  destruct (Fields.normalize arg) as [path fps].
  destruct (negb _); [|done]. by intros [= <-].
Qed.

Lemma getFieldData_fieldPathString P h arg fd :
  Fields.getFieldData P h arg = Ok fd →
  fieldPathString fd = (Fields.normalize arg).2.
Proof.
  unfold Fields.getFieldData.
  destruct (Fields.normalize arg) as [path fps].
  destruct (negb _); [done|]. by intros [= <-].
Qed.

Lemma propsFor_resolved P h arg fd :
  Fields.getFieldData P h arg = Ok fd →
  ∃ props, Fields.getPropsForFieldData P h fd = Ok props
    ∧ Fields.propsFor P h arg = Ok props.
Proof.
  intros Hfd.
  destruct (getPropsForFieldData_lookup P h fd) as (props & Hp & _).
  { apply truthy_not_nullish. by eapply getFieldData_truthy. }
  exists props. split; [done|]. unfold Fields.propsFor. by rewrite Hfd.
Qed.

(** What [renderField] returns for a resolved field, by the component it
    finds. *)
Lemma renderField_resolved P h arg fieldProps fieldComponent fd props :
  Fields.getFieldData P h arg = Ok fd →
  Fields.propsFor P h arg = Ok props →
  Fields.renderField P h arg fieldProps fieldComponent
  = let FieldComponent :=
      js_or (js_or fieldComponent (get_prop h (fieldSchema fd) "fieldComponent"))
            (js_and (fieldType fd) (get_prop h (fieldType fd) "fieldComponent")) in
    if truthy FieldComponent
    then Ok (NHost "div" (key_of (fieldPathString fd))
               [NNull;
                NComponent FieldComponent (spread props (own_enumerable h fieldProps))])
    else Throw (VError (NoComponent (fieldPathString fd)
                          (to_key (get_prop h (fieldSchema fd) "type")))).
Proof.
  intros Hfd Hprops. unfold Fields.propsFor in Hprops. rewrite Hfd in Hprops.
  unfold Fields.renderField. rewrite Hfd, Hprops. cbv zeta.
  by destruct (truthy _).
Qed.

(** X7.  For a resolved field, [renderField] renders the component given in
    the call when there is one, else the [fieldComponent] of the field
    definition, else the [fieldComponent] of the type registry entry, and
    fails with the "does not have a component" violation when there is
    none.  The component receives the properties of [propsFor] overridden by
    the extra properties of the call, inside a [div] keyed by the path
    string. *)
Theorem renderField_component_precedence (P : props) (h : heap) (arg : path_arg)
    (fieldProps fieldComponent : val) (fd : FieldData) :
  Fields.getFieldData P h arg = Ok fd →
  ∃ props, Fields.propsFor P h arg = Ok props ∧
    let rendered c :=
      Ok (NHost "div" (key_of (fieldPathString fd))
            [NNull; NComponent c (spread props (own_enumerable h fieldProps))]) in
    let ofField := get_prop h (fieldSchema fd) "fieldComponent" in
    let ofType := js_and (fieldType fd) (get_prop h (fieldType fd) "fieldComponent") in
    (truthy fieldComponent = true →
       Fields.renderField P h arg fieldProps fieldComponent = rendered fieldComponent)
    ∧ (truthy fieldComponent = false → truthy ofField = true →
       Fields.renderField P h arg fieldProps fieldComponent = rendered ofField)
    ∧ (truthy fieldComponent = false → truthy ofField = false → truthy ofType = true →
       Fields.renderField P h arg fieldProps fieldComponent = rendered ofType)
    ∧ (truthy fieldComponent = false → truthy ofField = false → truthy ofType = false →
       Fields.renderField P h arg fieldProps fieldComponent
       = Throw (VError (NoComponent (fieldPathString fd)
                          (to_key (get_prop h (fieldSchema fd) "type"))))).
Proof.
  intros Hfd. destruct (propsFor_resolved P h arg fd Hfd) as (props & _ & Hprops).
  exists props. split; [done|]. cbv zeta.
  rewrite (renderField_resolved P h arg fieldProps fieldComponent fd props) by done.
  cbv zeta. unfold js_or.
  repeat split.
  - intros H1. by rewrite !H1.
  - intros H1 H2. by rewrite !H1, !H2.
  - intros H1 H2 H3. by rewrite !H1, !H2, !H3.
  - intros H1 H2 H3. by rewrite !H1, !H2, !H3.
Qed.

(** X8.  When [renderField] returns, the component receives, for every key
    of the extra properties of the call, the value of the call, and for
    every other key the value of [propsFor]: an [onChange] among the extra
    properties replaces the bound change callback. *)
Theorem renderField_extra_props_win (P : props) (h : heap) (arg : path_arg)
    (fieldProps fieldComponent : val) (n : node) :
  Fields.renderField P h arg fieldProps fieldComponent = Ok n →
  ∃ key component cprops props,
    n = NHost "div" key [NNull; NComponent component cprops]
    ∧ Fields.propsFor P h arg = Ok props
    ∧ ∀ k, cprops !! k
           = match own_enumerable h fieldProps !! k with
             | Some v => Some v
             | None => props !! k
             end.
Proof.
  intros Hr.
  destruct (Fields.getFieldData P h arg) as [fd|e] eqn:Hfd.
  2:{ unfold Fields.renderField in Hr. by rewrite Hfd in Hr. }
  destruct (propsFor_resolved P h arg fd Hfd) as (props & _ & Hprops).
  rewrite (renderField_resolved P h arg fieldProps fieldComponent fd props) in Hr
    by done.
  cbv zeta in Hr. destruct (truthy _); [|done]. injection Hr as <-.
  eexists _, _, _, props. split; [done|]. split; [done|].
  intros k. apply lookup_spread.
Qed.

(** X9.  [renderField] fails in two ways only: with the "not defined in the
    schema" violation, exactly when [getFieldData] fails, or with the "does
    not have a component" violation for a field that resolves; both carry
    the path string as it was given, [null] for an array path. *)
Theorem renderField_failures (P : props) (h : heap) (arg : path_arg)
    (fieldProps fieldComponent e : val) :
  Fields.renderField P h arg fieldProps fieldComponent = Throw e →
  let fps := match arg with PathStr s => Some s | _ => None end in
  (e = VError (FieldNotDefined fps)
   ∧ Fields.getFieldData P h arg = Throw e)
  ∨ (∃ fd, Fields.getFieldData P h arg = Ok fd
       ∧ e = VError (NoComponent fps (to_key (get_prop h (fieldSchema fd) "type")))).
Proof.
  intros Hr fps.
  assert ((Fields.normalize arg).2 = fps) as Hfps by (by destruct arg).
  destruct (Fields.getFieldData P h arg) as [fd|e'] eqn:Hfd.
  - right. exists fd. split; [done|].
    destruct (propsFor_resolved P h arg fd Hfd) as (props & _ & Hprops).
    rewrite (renderField_resolved P h arg fieldProps fieldComponent fd props) in Hr
      by done.
    cbv zeta in Hr. destruct (truthy _); [done|]. injection Hr as <-.
    by rewrite (getFieldData_fieldPathString P h arg fd Hfd), Hfps.
  - left. unfold Fields.renderField in Hr. rewrite Hfd in Hr. injection Hr as ->.
    split; [|done]. rewrite <- Hfps. by eapply getFieldData_error.
Qed.

(** ** [renderAllFields] *)

Lemma map_result_elem {A B} (f : A → result B) l ys x :
  map_result f l = Ok ys → x ∈ l → ∃ y, f x = Ok y.
Proof.
  intros Hm Hx. apply map_result_Ok in Hm.
  induction Hm as [|x' y l' ys' Hy _ IH]; [by apply elem_of_nil in Hx|].
  apply elem_of_cons in Hx as [->|Hx]; [by exists y|by apply IH].
Qed.




(** ** [renderFields] and [createFieldRenderer] *)

(** The store and the type registry after [renderFields]. *)
Lemma renderFields_store h schema options render :
  ∃ ls ln lt,
    h !! ls = None ∧ h !! ln = None ∧ h !! lt = None
    ∧ ls ≠ ln ∧ ls ≠ lt ∧ ln ≠ lt
    ∧ (renderFields h schema options render).2
      = <[lt := plain {[ "string" := VRef ls; "number" := VRef ln ]}]>
          (<[ln := plain {[ "fieldComponent" := NumberInput ]}]>
             (<[ls := plain {[ "fieldComponent" := TextInput ]}]> h))
    ∧ p_fieldTypes (renderFields h schema options render).1
      = overridden (VRef lt) (pick (p_fieldTypes options)).
Proof.
  unfold renderFields, alloc. cbn [fst snd p_fieldTypes pickBy_truthy].
  set (ls := fresh (dom h)).
  set (h1 := <[ls := plain {[ "fieldComponent" := TextInput ]}]> h).
  set (ln := fresh (dom h1)).
  set (h2 := <[ln := plain {[ "fieldComponent" := NumberInput ]}]> h1).
  set (lt := fresh (dom h2)).
  assert (h !! ls = None) as Hls by (apply not_elem_of_dom, is_fresh).
  assert (h1 !! ln = None) as Hln by (apply not_elem_of_dom, is_fresh).
  assert (h2 !! lt = None) as Hlt by (apply not_elem_of_dom, is_fresh).
  assert (ls ≠ ln) as H1.
  { intros E. rewrite <- E in Hln. unfold h1 in Hln. by rewrite lookup_insert_eq in Hln. }
  assert (ln ≠ lt) as H2.
  { intros E. rewrite <- E in Hlt. unfold h2 in Hlt. by rewrite lookup_insert_eq in Hlt. }
  assert (ls ≠ lt) as H3.
  { intros E. rewrite <- E in Hlt. unfold h2, h1 in Hlt.
    rewrite lookup_insert_ne in Hlt by done. by rewrite lookup_insert_eq in Hlt. }
  exists ls, ln, lt. repeat split; try done.
  - unfold h1 in Hln. by rewrite lookup_insert_ne in Hln.
  - unfold h2, h1 in Hlt. by rewrite !lookup_insert_ne in Hlt.
Qed.


Lemma getFieldData_fieldType P h arg fd :
  Fields.getFieldData P h arg = Ok fd →
  fieldType fd
  = js_and (p_fieldTypes P)
           (get_prop_val h (p_fieldTypes P) (get_prop h (fieldSchema fd) "type")).
Proof.
  unfold Fields.getFieldData.
  destruct (Fields.normalize arg) as [path fps].
  destruct (negb _); [done|]. by intros [= <-].
Qed.


(** X13.  A truthy [fieldTypes] option replaces the built-in registry as a
    whole: the fields that [renderFields] resolves take their type defaults
    from the option alone, [string] and [number] included. *)
Theorem renderFields_custom_registry (h : heap) (schema : val) (options : props)
    (render : val) (P' : props) (h' : heap) (arg : path_arg) (fd : FieldData) :
  renderFields h schema options render = (P', h') →
  truthy (p_fieldTypes options) = true →
  Fields.getFieldData P' h' arg = Ok fd →
  p_fieldTypes P' = p_fieldTypes options
  ∧ fieldType fd
    = get_prop_val h' (p_fieldTypes options) (get_prop h' (fieldSchema fd) "type").
Proof.
  intros HR Hyes Hfd.
  assert (p_fieldTypes P' = p_fieldTypes options) as Ht.
  { unfold renderFields, alloc in HR. injection HR as <- _.
    cbn [p_fieldTypes pickBy_truthy]. unfold pick. rewrite Hyes.
    by destruct (p_fieldTypes options). }
  split; [done|].
  rewrite (getFieldData_fieldType _ _ _ _ Hfd), Ht. unfold js_and. by rewrite Hyes.
Qed.

(** X14.  [createFieldRenderer]: an option that is absent leaves the base
    option in force; a truthy option wins over the base option; an option
    that is present but falsy ([null], [false], [0], the empty string) hides
    the base option and is then dropped, so that the default applies (for
    [value], the default of [Fields]; for [error], nothing).  The [fields]
    list of the call wins over the one of the base. *)
Theorem createFieldRenderer_options (baseOptions : props) (h : heap) (schema : val)
    (options : props) (render : val) :
  let P' := (createFieldRenderer baseOptions h schema options render).1 in
  (p_value options = VUndef →
     p_value P' = defaulted (pick (p_value baseOptions)) Fields.defaultProps_value)
  ∧ (truthy (p_value options) = true → p_value P' = p_value options)
  ∧ (p_value options ≠ VUndef → truthy (p_value options) = false →
     p_value P' = Fields.defaultProps_value)
  ∧ (p_error options = VUndef → p_error P' = pick (p_error baseOptions))
  ∧ (truthy (p_error options) = true → p_error P' = p_error options)
  ∧ (p_error options ≠ VUndef → truthy (p_error options) = false →
     p_error P' = VUndef)
  ∧ p_fields P'
    = match p_fields options with
      | Some fields => Some fields
      | None => p_fields baseOptions
      end.
Proof.
  unfold createFieldRenderer, renderFields, alloc.
  cbn [fst p_value p_error p_fields pickBy_truthy merge_options].
  unfold pick.
  repeat split.
  - by intros ->.
  - intros Ht. destruct (p_value options); simpl in *; try done; by rewrite ?Ht.
  - intros Hne Ht. destruct (p_value options); simpl in *; try done; by rewrite ?Ht.
  - by intros ->.
  - intros Ht. destruct (p_error options); simpl in *; try done; by rewrite ?Ht.
  - intros Hne Ht. destruct (p_error options); simpl in *; try done; by rewrite ?Ht.
Qed.

(** ** What [Form] configures *)

Lemma context_with_submit v :
  spread {[ "render" := VFun "Fields.renderFieldWithProps";
            "renderComponent" := VFun "Fields.renderFieldWithComponent";
            "propsFor" := VFun "Fields.propsFor";
            "value" := v ]}
         ({[ "renderSubmit" := VFun "Form.renderSubmit";
             "submit" := VFun "Form.submit" ]} : gmap string val)
  = {[ "render" := VFun "Fields.renderFieldWithProps";
       "renderComponent" := VFun "Fields.renderFieldWithComponent";
       "propsFor" := VFun "Fields.propsFor";
       "value" := v;
       "renderSubmit" := VFun "Form.renderSubmit";
       "submit" := VFun "Form.submit" ]}.
Proof. vm_compute. reflexivity. Qed.

(** The properties and the store that [Form.render] produces. *)
Lemma Form_render_store P st h :
  ∃ lctx ls ln lt,
    h !! lctx = None ∧ h !! ls = None ∧ h !! ln = None ∧ h !! lt = None
    ∧ lctx ≠ ls ∧ lctx ≠ ln ∧ lctx ≠ lt ∧ ls ≠ ln ∧ ls ≠ lt ∧ ln ≠ lt
    ∧ (Form.render P st h).2
      = <[lt := plain {[ "string" := VRef ls; "number" := VRef ln ]}]>
          (<[ln := plain {[ "fieldComponent" := NumberInput ]}]>
             (<[ls := plain {[ "fieldComponent" := TextInput ]}]>
                (<[lctx := plain {[ "renderSubmit" := VFun "Form.renderSubmit";
                                    "submit" := VFun "Form.submit" ]}]> h)))
    ∧ p_fieldTypes (Form.render P st h).1.2 = VRef lt
    ∧ p_fieldsContext (Form.render P st h).1.2 = VRef lctx.
Proof.
  set (lctx := fresh (dom h)).
  set (ctx := plain {[ "renderSubmit" := VFun "Form.renderSubmit";
                       "submit" := VFun "Form.submit" ]}).
  set (h0 := <[lctx := ctx]> h).
  assert (h !! lctx = None) as Hctx by (apply not_elem_of_dom, is_fresh).
  destruct (renderFields_store h0 (f_schema P) (Form.render_options P st h).1 (f_render P))
    as (ls & ln & lt & Hls & Hln & Hlt & H1 & H2 & H3 & Hstore & Htypes).
  assert (∀ l, h0 !! l = None → h !! l = None ∧ lctx ≠ l) as Hnew.
  { intros l Hl. split.
    - destruct (decide (lctx = l)) as [<-|Hne];
        [unfold h0 in Hl; by rewrite lookup_insert_eq in Hl|].
      unfold h0 in Hl. by rewrite lookup_insert_ne in Hl.
    - intros <-. unfold h0 in Hl. by rewrite lookup_insert_eq in Hl. }
  destruct (Hnew ls Hls), (Hnew ln Hln), (Hnew lt Hlt).
  exists lctx, ls, ln, lt. repeat split; try done.
Qed.

(** X15.  Whatever the properties and the state of the form, the [Fields]
    instance it renders has [Form.onChange] as its listener, no
    [fieldComponentProps], no [readOnly], and the built-in type registry:
    [string] with [TextInput], [number] with [NumberInput]; and rendering
    modifies no object of the store. *)
Theorem form_fields_configuration (P : FormProps) (st : FormState) (h : heap) :
  let fields := (Form.render P st h).1.2 in
  let h' := (Form.render P st h).2 in
  h ⊆ h'
  ∧ p_onChange fields = VFun "Form.onChange"
  ∧ p_fieldComponentProps fields = VUndef
  ∧ p_readOnly fields = VUndef
  ∧ get_prop h' (get_prop h' (p_fieldTypes fields) "string") "fieldComponent" = TextInput
  ∧ get_prop h' (get_prop h' (p_fieldTypes fields) "number") "fieldComponent" = NumberInput
  ∧ ∀ k, k ≠ "string" → k ≠ "number" → get_prop h' (p_fieldTypes fields) k = VUndef.
Proof.
  intros fields h'.
  destruct (Form_render_store P st h)
    as (lctx & ls & ln & lt & Hctx & Hls & Hln & Hlt & N1 & N2 & N3 & N4 & N5 & N6
        & Hstore & Htypes & _).
  fold h' in Hstore. fold fields in Htypes. rewrite Htypes.
  assert (h' !! lt = Some (plain {[ "string" := VRef ls; "number" := VRef ln ]}))
    as Hlt' by (rewrite Hstore; apply lookup_insert_eq).
  assert (h' !! ln = Some (plain {[ "fieldComponent" := NumberInput ]})) as Hln'.
  { rewrite Hstore. rewrite lookup_insert_ne by done. apply lookup_insert_eq. }
  assert (h' !! ls = Some (plain {[ "fieldComponent" := TextInput ]})) as Hls'.
  { rewrite Hstore. rewrite !lookup_insert_ne by done. apply lookup_insert_eq. }
  split; [|split; [done|split; [done|split; [done|split; [|split]]]]].
  - rewrite Hstore. by repeat (apply insert_subseteq_r; [done|]).
  - rewrite (get_prop_own h' lt _ "string" (VRef ls) Hlt') by done.
    by rewrite (get_prop_own h' ls _ "fieldComponent" TextInput Hls').
  - rewrite (get_prop_own h' lt _ "number" (VRef ln) Hlt') by done.
    by rewrite (get_prop_own h' ln _ "fieldComponent" NumberInput Hln').
  - intros k Hs Hn. unfold get_prop, lookup_prop. rewrite Hlt'.
    cbn [plain o_array o_props andb].
    rewrite lookup_insert_ne by congruence.
    by rewrite lookup_singleton_ne by congruence.
Qed.

(** X16.  The context that the [Fields] instance rendered by a form passes to
    the render function holds exactly: the three helpers of [Fields], the
    value tree of the instance, and [renderSubmit] and [submit] bound to the
    form.  The render function is the [render] property of the form; when
    that is falsy, the instance renders with [renderAllFields]. *)
Theorem form_fields_context (P : FormProps) (st : FormState) (h : heap)
    (titleize : string → string)
    (call_render : val → gmap string val → heap → result node) :
  let fields := (Form.render P st h).1.2 in
  let h' := (Form.render P st h).2 in
  Fields.context fields h'
  = {[ "render" := VFun "Fields.renderFieldWithProps";
       "renderComponent" := VFun "Fields.renderFieldWithComponent";
       "propsFor" := VFun "Fields.propsFor";
       "value" := p_value fields;
       "renderSubmit" := VFun "Form.renderSubmit";
       "submit" := VFun "Form.submit" ]}
  ∧ Fields.render titleize call_render fields h'
    = if truthy (f_render P)
      then call_render (f_render P) (Fields.context fields h') h'
      else Fields.renderAllFields titleize fields h'.
Proof.
  intros fields h'.
  destruct (Form_render_store P st h)
    as (lctx & ls & ln & lt & Hctx & Hls & Hln & Hlt & N1 & N2 & N3 & N4 & N5 & N6
        & Hstore & _ & Hfc).
  fold h' in Hstore. fold fields in Hfc.
  split.
  - unfold Fields.context. rewrite Hfc. unfold own_enumerable.
    rewrite Hstore. rewrite !lookup_insert_ne by done. rewrite lookup_insert_eq.
    apply context_with_submit.
  - unfold Fields.render.
    assert (p_render fields = f_render P) as ->; [|done].
    unfold fields, Form.render, Form.render_options, renderFields, alloc.
    cbn [fst snd p_render pickBy_truthy]. by destruct (f_render P).
Qed.

(** X17.  The element of [renderSubmit] is the submit component of the form
    with an [onClick] that is always the [submit] of the form, whatever the
    two property sources say; on every other key the properties of the call
    win over [submitComponentProps]. *)
Theorem renderSubmit_props (submitComponent submitComponentProps : val) (h : heap)
    (props : val) :
  ∃ cprops,
    Form.renderSubmit submitComponent submitComponentProps h props
    = NComponent submitComponent cprops
    ∧ cprops !! "onClick" = Some (VFun "Form.submit")
    ∧ ∀ k, k ≠ "onClick" →
        cprops !! k
        = match own_enumerable h props !! k with
          | Some v => Some v
          | None => own_enumerable h submitComponentProps !! k
          end.
Proof.
  eexists. split; [done|]. split; [apply lookup_insert_eq|].
  intros k Hk. rewrite lookup_insert_ne by done. apply lookup_spread.
Qed.

(** ** More on the submit cycle *)

Lemma submit_cycle_end G P st h :
  cycle_end G P st h (run_submit G P st h).1 (run_submit G P st h).2.
Proof.
  destruct (f_validate P h (f_schema P) (values st)) as [[fe|e] h1] eqn:Hv.
  2:{ erewrite submit_validator_rejects by done. by constructor. }
  destruct (lodash_global G) eqn:HG.
  2:{ erewrite submit_without_lodash by done. by econstructor. }
  destruct (lodash.isEmpty h1 fe) eqn:He.
  2:{ destruct (submit_validation_fails G P st h fe h1) as (l & Hl & ->); try done.
      apply end_validation_fails; try done. by apply not_elem_of_dom. }
  destruct (f_submit P h1 (values st)) as [[res|e] h2] eqn:Hs.
  2:{ erewrite submit_rejected by done. by econstructor. }
  destruct (f_afterSubmit P) as [afterSubmit|] eqn:Ha.
  2:{ erewrite submit_resolved_no_hook by done. by econstructor. }
  destruct (afterSubmit h2 (values st) res) as [out h3] eqn:Ho.
  erewrite submit_resolved_hook by done. by econstructor.
Qed.

(** X18.  A validator that rejects: the cycle rejects with the same value;
    it is not turned into an error state, which stays [null]; the validator
    is the only function called. *)
Theorem submit_validator_rejection (G : globals) (P : FormProps) (st : FormState)
    (h : heap) (e : val) (h1 : heap) :
  f_validate P h (f_schema P) (values st) = (Rejected e, h1) →
  (run_submit G P st h).1 = Throw e
  ∧ errors (w_state (run_submit G P st h).2) = VNull
  ∧ calls (w_trace (run_submit G P st h).2)
    = [CallValidate (f_schema P) (values st)]
  ∧ w_heap (run_submit G P st h).2 = h1.
Proof.
  intros Hv. by rewrite (submit_validator_rejects G P st h e h1 Hv).
Qed.

(** X19.  A submit cycle never changes the values of the state, and does not
    depend on the error state it starts from: that state is replaced, not
    merged.  The error state it leaves is [null], or a new object holding
    the answer of the validator under [fieldErrors] and nothing else, or the
    value the submit function rejected with. *)
Theorem submit_state (G : globals) (P : FormProps) (st : FormState) (h : heap) :
  values (w_state (run_submit G P st h).2) = values st
  ∧ (∀ previous,
       run_submit G P {| values := values st; errors := previous |} h
       = run_submit G P st h)
  ∧ (errors (w_state (run_submit G P st h).2) = VNull
     ∨ (∃ l fe h1,
          errors (w_state (run_submit G P st h).2) = VRef l
          ∧ f_validate P h (f_schema P) (values st) = (Resolved fe, h1)
          ∧ h1 !! l = None
          ∧ w_heap (run_submit G P st h).2 !! l
            = Some (plain {[ "fieldErrors" := fe ]}))
     ∨ (∃ e h1 h2,
          errors (w_state (run_submit G P st h).2) = e
          ∧ f_submit P h1 (values st) = (Rejected e, h2))).
Proof.
  split; [|split].
  - by destruct (submit_cycle_end G P st h).
  - done.
  - destruct (submit_cycle_end G P st h); simpl; eauto.
    + right. left. exists l, fe, h1. repeat split; try done. apply lookup_insert_eq.
    + right. right. eauto.
Qed.

(** X20.  In every cycle the functions supplied by the caller are called in
    the order validator, submit function, [afterSubmit], each at most once
    and with the values the state had when the cycle started; the validator
    is always called, the submit function only after it, [afterSubmit] only
    after the submit function and only when it is configured. *)
Theorem submit_call_order (G : globals) (P : FormProps) (st : FormState) (h : heap) :
  ∃ rest res,
    calls (w_trace (run_submit G P st h).2)
    = CallValidate (f_schema P) (values st) :: rest
    ∧ rest `prefix_of` [CallSubmit (values st); CallAfterSubmit (values st) res]
    ∧ (CallAfterSubmit (values st) res ∈ rest → is_Some (f_afterSubmit P)).
Proof.
  destruct (submit_cycle_end G P st h); simpl.
  - exists [], VUndef. split; [done|]. split; [apply prefix_nil|]. by intros ?%elem_of_nil.
  - exists [], VUndef. split; [done|]. split; [apply prefix_nil|]. by intros ?%elem_of_nil.
  - exists [], VUndef. split; [done|]. split; [apply prefix_nil|]. by intros ?%elem_of_nil.
  - exists [CallSubmit (values st)], VUndef. split; [done|].
    split; [by apply prefix_cons, prefix_nil|].
    intros Hin. apply list_elem_of_In in Hin. simpl in Hin. intuition discriminate.
  - exists [CallSubmit (values st)], VUndef. split; [done|].
    split; [by apply prefix_cons, prefix_nil|].
    intros Hin. apply list_elem_of_In in Hin. simpl in Hin. intuition discriminate.
  - exists [CallSubmit (values st); CallAfterSubmit (values st) res], res.
    split; [done|]. split; [done|]. intros _. by eexists.
Qed.

Lemma not_empty_truthy h v : lodash.isEmpty h v = false → truthy v = true.
Proof.
  destruct v as [| | | |s| | | |l]; simpl; try done.
  intros ->. done.
Qed.

(** X21.  After a cycle stopped by the validator (lodash being bound to
    [_]), the form shows no summary, and hands the answer of the validator
    to [Fields] under [errors]. *)
Theorem validation_errors_rendered (G : globals) (P : FormProps) (st : FormState)
    (h : heap) (fe : val) (h1 : heap) :
  lodash_global G = true →
  f_validate P h (f_schema P) (values st) = (Resolved fe, h1) →
  lodash.isEmpty h1 fe = false →
  let w := (run_submit G P st h).2 in
  Form.renderError (w_state w) (w_heap w) = NNull
  ∧ p_errors (Form.render P (w_state w) (w_heap w)).1.2 = fe.
Proof.
  intros HG Hv He w.
  destruct (submit_validation_fails G P st h fe h1 HG Hv He) as (l & Hl & Hrun).
  unfold w. rewrite Hrun. cbn [snd w_state w_heap].
  set (h2 := <[l := plain {[ "fieldErrors" := fe ]}]> h1).
  assert (h2 !! l = Some (plain {[ "fieldErrors" := fe ]})) as Hl2
    by apply lookup_insert_eq.
  split.
  - unfold Form.renderError. cbn [errors js_and truthy].
    unfold get_prop, lookup_prop. rewrite Hl2. cbn [plain o_array o_props andb].
    by rewrite lookup_singleton_ne.
  - destruct (form_fields_error P {| values := values st; errors := VRef l |} h2)
      as [_ ->].
    cbn [errors js_and truthy].
    rewrite (get_prop_own h2 l _ "fieldErrors" fe Hl2);
      [|done|apply lookup_singleton_eq].
    unfold pick. by rewrite (not_empty_truthy h1 fe He).
Qed.

(** X22.  After a cycle in which the submit function rejected with an object
    that has a truthy [summaryError], the form shows that message; the
    [fieldErrors] of the same object, when truthy, are what it hands to
    [Fields] under [errors]. *)
Theorem rejection_rendered (G : globals) (P : FormProps) (st : FormState)
    (h : heap) (fe : val) (h1 : heap) (e : val) (h2 : heap) :
  lodash_global G = true →
  f_validate P h (f_schema P) (values st) = (Resolved fe, h1) →
  lodash.isEmpty h1 fe = true →
  f_submit P h1 (values st) = (Rejected e, h2) →
  truthy e = true →
  truthy (get_prop h2 e "summaryError") = true →
  let w := (run_submit G P st h).2 in
  Form.renderError (w_state w) (w_heap w)
  = NHost "div" VUndef [NText (get_prop h2 e "summaryError")]
  ∧ p_errors (Form.render P (w_state w) (w_heap w)).1.2
    = pick (get_prop h2 e "fieldErrors").
Proof.
  intros HG Hv He Hs Hte Htm w.
  unfold w. rewrite (submit_rejected G P st h fe h1 e h2 HG Hv He Hs).
  cbn [snd w_state w_heap].
  split.
  - unfold Form.renderError. cbn [errors]. unfold js_and. by rewrite Hte, Htm.
  - destruct (form_fields_error P {| values := values st; errors := e |} h2)
      as [_ ->].
    cbn [errors]. unfold js_and. by rewrite Hte.
Qed.

(** ** One item per key *)

Lemma renderAllFields_keys titleize P h n :
  Fields.renderAllFields titleize P h = Ok n →
  ∃ items, n = NHost "div" VUndef items
    ∧ node_key <$> items = VStr <$> Fields.sortedFieldNames P h.
Proof.
  unfold Fields.renderAllFields.
  destruct (map_result _ _) as [items|] eqn:Hitems; simpl; [|done].
  intros [= <-]. exists items. split; [done|].
  apply map_result_Ok in Hitems.
  induction Hitems as [|name item names items Hitem _ IH]; [done|].
  simpl. f_equal; [|done]. by eapply renderItem_key.
Qed.

(** X23.  Without a [fields] list, when [renderAllFields] returns it has
    rendered one item for each own key of the schema, no key twice and
    nothing else: as many items as keys, and a name is the key of an item
    exactly when it is a key of the schema. *)
Theorem renderAllFields_one_item_per_key (titleize : string → string) (P : props)
    (h : heap) (n : node) :
  p_fields P = None →
  Fields.renderAllFields titleize P h = Ok n →
  ∃ items,
    n = NHost "div" VUndef items
    ∧ List.length items = size (own_enumerable h (p_schema P))
    ∧ NoDup (node_key <$> items)
    ∧ ∀ name, VStr name ∈ node_key <$> items
              ↔ is_Some (own_enumerable h (p_schema P) !! name).
Proof.
  intros Hf Hr.
  destruct (renderAllFields_keys titleize P h n Hr) as (items & -> & Hkeys).
  exists items. split; [done|].
  assert (Fields.sortedFieldNames P h ≡ₚ lodash.keys h (p_schema P)) as Hperm.
  { unfold Fields.sortedFieldNames. rewrite Hf. apply sortBy_Permutation. }
  split; [|split].
  - rewrite <- (length_fmap node_key), Hkeys, length_fmap, Hperm.
    unfold lodash.keys. by rewrite length_fmap, length_map_to_list.
  - rewrite Hkeys. apply NoDup_fmap_2; [by intros a b [= ->]|].
    rewrite Hperm. apply keys_NoDup.
  - intros name. rewrite Hkeys. rewrite <- elem_of_keys, <- Hperm.
    split.
    + intros (name' & [= ->] & Hin)%list_elem_of_fmap. done.
    + intros Hin. apply list_elem_of_fmap. by exists name.
Qed.

Lemma renderAllFields_one_item_per_key_witness :
  p_fields ZAM_props = None
  ∧ Fields.renderAllFields (λ name, name) ZAM_props ZAM_store = Ok ZAM_rendered
  ∧ ∃ items,
      ZAM_rendered = NHost "div" VUndef items
      ∧ List.length items = size (own_enumerable ZAM_store (p_schema ZAM_props))
      ∧ NoDup (node_key <$> items)
      ∧ ∀ name, VStr name ∈ node_key <$> items
                ↔ is_Some (own_enumerable ZAM_store (p_schema ZAM_props) !! name).
Proof.
  split; [reflexivity|]. split; [vm_compute; reflexivity|].
  apply (renderAllFields_one_item_per_key (λ name, name) ZAM_props ZAM_store
           ZAM_rendered).
  - reflexivity.
  - vm_compute. reflexivity.
Defined.

(** ** Instances *)


Lemma changeField_keeps_previous_tree_witness :
  closed Address.h
  ∧ val_in Address.h (p_value Address.P)
  ∧ (["home"] ≠ [] →
     isObject (default VUndef (own_enumerable Address.h (p_value Address.P) !! "phone"))
     = false)
  ∧ lodash.get (Fields.changeField Address.P Address.h (Some ["phone"; "home"])
                  (VStr "555") (Some "phone.home")).1
               (p_value Address.P) ["address"; "city"]
    = lodash.get Address.h (p_value Address.P) ["address"; "city"].
Proof.
  split; [apply (bool_decide_unpack _); vm_compute; exact I|].
  split; [apply (bool_decide_unpack _); vm_compute; exact I|].
  split; [intros _; vm_compute; reflexivity|].
  apply (changeField_keeps_previous_tree Address.P Address.h "phone" ["home"]
           (VStr "555") (Some "phone.home") ["address"; "city"]).
  - apply (bool_decide_unpack _). vm_compute. exact I.
  - apply (bool_decide_unpack _). vm_compute. exact I.
  - intros _. vm_compute. reflexivity.
Defined.


Lemma bound_callback_forwards_witness :
  Fields.getFieldData Address.P Address.h (PathStr "address.city") = Ok Address_city
  ∧ truthy (p_onChange Address.P) = true
  ∧ ∃ tree h',
      Fields.call_onChange Address.P Address.h (onChange Address_city) (VStr "Lyon")
      = (h', Some (tree, Some "address.city", VStr "Lyon",
                   Some (split_dot "address.city"))).
Proof.
  split; [vm_compute; reflexivity|]. split; [reflexivity|].
  apply (bound_callback_forwards Address.P Address.h (PathStr "address.city")
           Address_city (VStr "Lyon")).
  - vm_compute. reflexivity.
  - reflexivity.
Defined.

Lemma key_array_as_dotted_string_witness :
  ["address"; "city"] ≠ []
  ∧ Forall (λ k, has_dot k = false) ["address"; "city"]
  ∧ split_dot (join_dot ["address"; "city"]) = ["address"; "city"]
  ∧ same_resolution
      (Fields.getFieldData Address.P Address.h (PathStr (join_dot ["address"; "city"])))
      (Fields.getFieldData Address.P Address.h (PathArr ["address"; "city"])).
Proof.
  split; [discriminate|]. split; [repeat constructor|].
  apply (key_array_as_dotted_string ["address"; "city"] Address.P Address.h).
  - discriminate.
  - repeat constructor.
Defined.

Lemma renderField_component_precedence_witness :
  Fields.getFieldData Overlap.P Overlap.h (PathStr "name") = Ok Overlap.fd
  ∧ ∃ props, Fields.propsFor Overlap.P Overlap.h (PathStr "name") = Ok props ∧
      let rendered c :=
        Ok (NHost "div" (key_of (fieldPathString Overlap.fd))
              [NNull; NComponent c (spread props (own_enumerable Overlap.h VUndef))]) in
      let ofField := get_prop Overlap.h (fieldSchema Overlap.fd) "fieldComponent" in
      let ofType :=
        js_and (fieldType Overlap.fd)
               (get_prop Overlap.h (fieldType Overlap.fd) "fieldComponent") in
      (truthy VUndef = true →
         Fields.renderField Overlap.P Overlap.h (PathStr "name") VUndef VUndef
         = rendered VUndef)
      ∧ (truthy VUndef = false → truthy ofField = true →
         Fields.renderField Overlap.P Overlap.h (PathStr "name") VUndef VUndef
         = rendered ofField)
      ∧ (truthy VUndef = false → truthy ofField = false → truthy ofType = true →
         Fields.renderField Overlap.P Overlap.h (PathStr "name") VUndef VUndef
         = rendered ofType)
      ∧ (truthy VUndef = false → truthy ofField = false → truthy ofType = false →
         Fields.renderField Overlap.P Overlap.h (PathStr "name") VUndef VUndef
         = Throw (VError (NoComponent (fieldPathString Overlap.fd)
                            (to_key (get_prop Overlap.h (fieldSchema Overlap.fd) "type"))))).
Proof.
  split; [vm_compute; reflexivity|].
  apply (renderField_component_precedence Overlap.P Overlap.h (PathStr "name")
           VUndef VUndef Overlap.fd).
  vm_compute. reflexivity.
Defined.

Lemma renderField_extra_props_win_witness :
  Fields.renderField Overlap.P Overlap.h (PathStr "name") VUndef VUndef
  = Ok Overlap_rendered
  ∧ ∃ key component cprops props,
      Overlap_rendered = NHost "div" key [NNull; NComponent component cprops]
      ∧ Fields.propsFor Overlap.P Overlap.h (PathStr "name") = Ok props
      ∧ ∀ k, cprops !! k
             = match own_enumerable Overlap.h VUndef !! k with
               | Some v => Some v
               | None => props !! k
               end.
Proof.
  split; [vm_compute; reflexivity|].
  apply (renderField_extra_props_win Overlap.P Overlap.h (PathStr "name")
           VUndef VUndef Overlap_rendered).
  vm_compute. reflexivity.
Defined.

Lemma renderField_failures_witness :
  Fields.renderField Address.P Address.h (PathStr "name") VUndef VUndef
  = Throw (VError (NoComponent (Some "name") (Some "string")))
  ∧ ((VError (NoComponent (Some "name") (Some "string"))
      = VError (FieldNotDefined (Some "name"))
      ∧ Fields.getFieldData Address.P Address.h (PathStr "name")
        = Throw (VError (NoComponent (Some "name") (Some "string"))))
     ∨ (∃ fd, Fields.getFieldData Address.P Address.h (PathStr "name") = Ok fd
          ∧ VError (NoComponent (Some "name") (Some "string"))
            = VError (NoComponent (Some "name")
                        (to_key (get_prop Address.h (fieldSchema fd) "type"))))).
Proof.
  split; [vm_compute; reflexivity|].
  apply (renderField_failures Address.P Address.h (PathStr "name") VUndef VUndef
           (VError (NoComponent (Some "name") (Some "string")))).
  vm_compute. reflexivity.
Defined.




Lemma renderFields_custom_registry_witness :
  renderFields Overlap.h (VRef 20%positive) Overlap.P VUndef
  = (Overlap_props, Overlap_store)
  ∧ truthy (p_fieldTypes Overlap.P) = true
  ∧ Fields.getFieldData Overlap_props Overlap_store (PathStr "name") = Ok Overlap.fd
  ∧ p_fieldTypes Overlap_props = p_fieldTypes Overlap.P
  ∧ fieldType Overlap.fd
    = get_prop_val Overlap_store (p_fieldTypes Overlap.P)
        (get_prop Overlap_store (fieldSchema Overlap.fd) "type").
Proof.
  split; [reflexivity|]. split; [reflexivity|]. split; [vm_compute; reflexivity|].
  apply (renderFields_custom_registry Overlap.h (VRef 20%positive) Overlap.P VUndef
           Overlap_props Overlap_store (PathStr "name") Overlap.fd).
  - reflexivity.
  - reflexivity.
  - vm_compute. reflexivity.
Defined.

Lemma submit_validator_rejection_witness :
  f_validate Rejecting.P Required.h (f_schema Rejecting.P) (values Required.st)
  = (Rejected (VStr "offline"), Required.h)
  ∧ (run_submit with_lodash Rejecting.P Required.st Required.h).1
    = Throw (VStr "offline")
  ∧ errors (w_state (run_submit with_lodash Rejecting.P Required.st Required.h).2)
    = VNull
  ∧ calls (w_trace (run_submit with_lodash Rejecting.P Required.st Required.h).2)
    = [CallValidate (f_schema Rejecting.P) (values Required.st)]
  ∧ w_heap (run_submit with_lodash Rejecting.P Required.st Required.h).2
    = Required.h.
Proof.
  split; [reflexivity|].
  apply (submit_validator_rejection with_lodash Rejecting.P Required.st Required.h
           (VStr "offline") Required.h).
  reflexivity.
Defined.

Lemma validation_errors_rendered_witness :
  lodash_global with_lodash = true
  ∧ f_validate Required.P Required.h (f_schema Required.P) (values Required.st)
    = (Resolved (VRef 43%positive), Required_validated)
  ∧ lodash.isEmpty Required_validated (VRef 43%positive) = false
  ∧ let w := (run_submit with_lodash Required.P Required.st Required.h).2 in
    Form.renderError (w_state w) (w_heap w) = NNull
    ∧ p_errors (Form.render Required.P (w_state w) (w_heap w)).1.2 = VRef 43%positive.
Proof.
  split; [reflexivity|]. split; [vm_compute; reflexivity|].
  split; [vm_compute; reflexivity|].
  apply (validation_errors_rendered with_lodash Required.P Required.st Required.h
           (VRef 43%positive) Required_validated).
  - reflexivity.
  - vm_compute. reflexivity.
  - vm_compute. reflexivity.
Defined.

Lemma rejection_rendered_witness :
  lodash_global with_lodash = true
  ∧ f_validate Saved.P_failing Required.h (f_schema Saved.P_failing)
      (values Required.st)
    = (Resolved (VRef 43%positive), Saved_validated)
  ∧ lodash.isEmpty Saved_validated (VRef 43%positive) = true
  ∧ f_submit Saved.P_failing Saved_validated (values Required.st)
    = (Rejected (VRef 44%positive), Saved_rejected)
  ∧ truthy (VRef 44%positive) = true
  ∧ truthy (get_prop Saved_rejected (VRef 44%positive) "summaryError") = true
  ∧ let w := (run_submit with_lodash Saved.P_failing Required.st Required.h).2 in
    Form.renderError (w_state w) (w_heap w)
    = NHost "div" VUndef
        [NText (get_prop Saved_rejected (VRef 44%positive) "summaryError")]
    ∧ p_errors (Form.render Saved.P_failing (w_state w) (w_heap w)).1.2
      = pick (get_prop Saved_rejected (VRef 44%positive) "fieldErrors").
Proof.
  split; [reflexivity|]. split; [vm_compute; reflexivity|].
  split; [vm_compute; reflexivity|]. split; [vm_compute; reflexivity|].
  split; [reflexivity|]. split; [vm_compute; reflexivity|].
  apply (rejection_rendered with_lodash Saved.P_failing Required.st Required.h
           (VRef 43%positive) Saved_validated (VRef 44%positive) Saved_rejected).
  - reflexivity.
  - vm_compute. reflexivity.
  - vm_compute. reflexivity.
  - vm_compute. reflexivity.
  - reflexivity.
  - vm_compute. reflexivity.
Defined.
